(** * FluidGlass: layout and animation arithmetic of the portfolio scene

  A shallow embedding of [src/components/FluidGlass.js].

  Conventions of the embedding.
  - A JavaScript number that the code only compares, adds, multiplies or
    divides is an exact rational ([Q], compared with [==]); the theorems
    stated on this model conclude equalities and orders that rounding to
    IEEE doubles keeps.  Where rounding decides the matter (the clamp of an
    image to the viewport) the same lines are also transcribed on binary64
    floats, in [ImageWithAspectRatio64].  The idle float of an image uses
    [Math.sin] and [Math.cos], so that part lives in [R].
  - [window.innerWidth] is an integer number of CSS pixels: [Z].
  - A props object is a finite map from property names to JS values
    ([gmap string JsVal]); object spread is map union, rest destructuring
    is deletion.
  - React state is passed explicitly: a handler takes the current state and
    returns the next one. *)

From Stdlib Require Import ZArith QArith Qminmax Reals Psatz.
From Corelib Require PrimFloat.
From stdpp Require Import gmap strings list fin_maps.

(** ** JavaScript values and the operators the component relies on *)

Module Js.

Local Open Scope Q_scope.

Record NavItem := { label : string; link : string }.

Inductive JsVal :=
| VUndefined
| VNull
| VNum (q : Q)
| VStr (s : string)
| VRef (name : string)            (* an opaque object, e.g. a texture *)
| VNav (items : list NavItem).

(** [v == null]: true for [null] and [undefined]; a missing property reads
    as [undefined]. *)
Definition nullish (o : option JsVal) : bool :=
  match o with
  | None | Some VUndefined | Some VNull => true
  | Some _ => false
  end.

(** [a ?? d] *)
Definition coalesce (o : option JsVal) (d : JsVal) : JsVal :=
  match o with
  | None | Some VUndefined | Some VNull => d
  | Some v => v
  end.

(** [selectedImage === index], where the state is [null] or an index. *)
Definition strictEq (selectedImage : option nat) (index : nat) : bool :=
  match selectedImage with
  | Some s => Nat.eqb s index
  | None => false
  end.

(** [x > y] on numbers *)
Definition gt (x y : Q) : bool := negb (Qle_bool x y).

(** [x || d] on a number: [0] is falsy. *)
Definition orElse (x d : Q) : Q := if Qeq_bool x 0 then d else x.

(** Truthiness of an optional numeric prop: [undefined] and [0] are falsy.
    Returns the number when it is truthy. *)
Definition truthy (o : option Q) : option Q :=
  match o with
  | Some q => if Qeq_bool q 0 then None else Some q
  | None => None
  end.

(** Evaluation either completes with a value or throws. *)
Inductive Completion (A : Type) :=
| Normal (a : A)
| Throw (err : string).
Arguments Normal {A} a.
Arguments Throw {A} err.

Definition bind {A B} (c : Completion A) (k : A -> Completion B) : Completion B :=
  match c with
  | Normal a => k a
  | Throw e => Throw e
  end.

(** [o.f] throws a TypeError when [o] is [undefined]; [o?.f] yields
    [undefined] instead. *)
Definition member {A B} (o : option A) (f : A -> option B) : Completion (option B) :=
  match o with
  | Some a => Normal (f a)
  | None => Throw "TypeError"
  end.

Definition optMember {A B} (o : option A) (f : A -> option B) : Completion (option B) :=
  match o with
  | Some a => Normal (f a)
  | None => Normal None
  end.

End Js.

Import Js.

#[global] Instance Completion_bind : MBind Completion :=
  fun A B k c => Js.bind c k.

Inductive Device := mobile | tablet | desktop.

(** ** function FluidGlass *)

Module FluidGlass.

(** [mode === "bar" ? barProps : mode === "cube" ? cubeProps : lensProps] *)
Definition rawOverrides (mode : string)
    (lensProps barProps cubeProps : gmap string JsVal) : gmap string JsVal :=
  if String.eqb mode "bar" then barProps
  else if String.eqb mode "cube" then cubeProps
  else lensProps.

Definition defaultNavItems : list NavItem :=
  [ {| label := "Home"; link := "#home" |};
    {| label := "About"; link := "#about" |};
    {| label := "Contact"; link := "#contact" |} ].

(** [const { navItems = [...], ...modeProps } = rawOverrides]: the default
    of a destructuring pattern applies when the property reads [undefined]. *)
Definition navItems (raw : gmap string JsVal) : JsVal :=
  match raw !! "navItems" with
  | None | Some VUndefined => VNav defaultNavItems
  | Some v => v
  end.

Definition modeProps (raw : gmap string JsVal) : gmap string JsVal :=
  delete "navItems" raw.

(** [{mode === "bar" && <NavItems items={navItems} />}] *)
Definition renderedNavItems (mode : string)
    (lensProps barProps cubeProps : gmap string JsVal) : option JsVal :=
  if String.eqb mode "bar"
  then Some (navItems (rawOverrides mode lensProps barProps cubeProps))
  else None.

(** [const Wrapper = mode === "bar" ? Bar : mode === "cube" ? Cube : Lens] *)
Inductive WrapperKind := BarWrapper | CubeWrapper | LensWrapper.

Definition Wrapper (mode : string) : WrapperKind :=
  if String.eqb mode "bar" then BarWrapper
  else if String.eqb mode "cube" then CubeWrapper
  else LensWrapper.

(** [<ScrollControls damping={0.2} pages={3} distance={0.4}>] *)
Definition pages : Q := 3.

End FluidGlass.

(** ** ModeWrapper *)

Module ModeWrapper.

Local Open Scope Q_scope.

(** What [geo.computeBoundingBox()] leaves in [geo.boundingBox]: only the
    x extent is read. *)
Record Box3 := { min_x : Q; max_x : Q }.
Record Geometry := { boundingBox : Box3 }.
Record Node := { geometry : option Geometry }.

(** [useRef(1)] *)
Definition geoWidthRef_initial : Q := 1.

(** The effect on [[nodes, geometryKey]]:
    [const geo = nodes[geometryKey]?.geometry;
     if (geo) { geoWidthRef.current = max.x - min.x || 1 }].
    Takes and returns [geoWidthRef.current]. *)
Definition geoWidthEffect (nodes : gmap string Node) (geometryKey : string)
    (current : Q) : Completion Q :=
  geo ← optMember (nodes !! geometryKey) geometry;
  match geo with
  | Some g =>
      let bb := boundingBox g in
      Normal (orElse (max_x bb - min_x bb) 1)
  | None => Normal current
  end.

(** [scale={scale ?? 0.15}] on the glass mesh. *)
Definition meshScaleProp (modeProps : gmap string JsVal) : JsVal :=
  coalesce (modeProps !! "scale") (VNum 0.15).

(** The scale part of the frame callback:
    [if (modeProps.scale == null) setScalar(Math.min(0.15, v.width * 0.9 / geoWidthRef.current))].
    [v_width] is the width of the viewport at depth 15; the mesh scale is
    left alone when an override is present. *)
Definition frameScale (modeProps : gmap string JsVal) (v_width : Q)
    (geoWidth : Q) (meshScale : JsVal) : JsVal :=
  if nullish (modeProps !! "scale") then
    let maxWorld := v_width * 0.9 in
    let desired := maxWorld / geoWidth in
    VNum (Qmin 0.15 desired)
  else meshScale.

(** Mount, run the geometry effect, then one frame: the scale of the glass
    mesh afterwards. *)
Definition scaleAfterFrame (nodes : gmap string Node) (geometryKey : string)
    (modeProps : gmap string JsVal) (v_width : Q) : Completion JsVal :=
  w ← geoWidthEffect nodes geometryKey geoWidthRef_initial;
  Normal (frameScale modeProps v_width w (meshScaleProp modeProps)).

(** [const { scale, ior, thickness, anisotropy, chromaticAberration, ...extraMat } = modeProps] *)
Definition extraMat (modeProps : gmap string JsVal) : gmap string JsVal :=
  delete "scale" (delete "ior" (delete "thickness"
    (delete "anisotropy" (delete "chromaticAberration" modeProps)))).

(** Props received by [MeshTransmissionMaterial]; the spread of [extraMat]
    comes last in the JSX, so it wins over the named props. *)
Definition materialProps (modeProps : gmap string JsVal) : gmap string JsVal :=
  extraMat modeProps ∪
  <["buffer" := VRef "buffer.texture"]>
  (<["ior" := coalesce (modeProps !! "ior") (VNum 1.15)]>
  (<["thickness" := coalesce (modeProps !! "thickness") (VNum 5)]>
  (<["anisotropy" := coalesce (modeProps !! "anisotropy") (VNum 0.01)]>
  (<["chromaticAberration" := coalesce (modeProps !! "chromaticAberration") (VNum 0.1)]>
   ∅)))).

(** Target of [easing.damp3(ref.current.position, [destX, destY, 15], 0.15, delta)]:
    [destX = followPointer ? (pointer.x * v.width) / 2 : 0],
    [destY = lockToBottom ? -v.height / 2 + 0.2
             : followPointer ? (pointer.y * v.height) / 2 : 0]. *)
Definition dest (followPointer lockToBottom : bool)
    (pointer_x pointer_y v_width v_height : Q) : Q * Q * Q :=
  let destX := if followPointer then pointer_x * v_width / 2 else 0 in
  let destY :=
    if lockToBottom then - v_height / 2 + 0.2
    else if followPointer then pointer_y * v_height / 2
    else 0 in
  (destX, destY, 15).

End ModeWrapper.

(** ** function Bar *)

Module Bar.

Local Open Scope Q_scope.

Definition defaultMat : gmap string JsVal :=
  <["transmission" := VNum 1]>
  (<["roughness" := VNum 0]>
  (<["thickness" := VNum 10]>
  (<["ior" := VNum 1.15]>
  (<["color" := VStr "#ffffff"]>
  (<["attenuationColor" := VStr "#ffffff"]>
  (<["attenuationDistance" := VNum 0.25]> ∅)))))).

(** [modeProps={{ ...defaultMat, ...modeProps }}]: the later spread wins. *)
Definition modeProps (modeProps : gmap string JsVal) : gmap string JsVal :=
  modeProps ∪ defaultMat.

Definition geometryKey : string := "Cube".

(** The material of the glass bar for a given [barProps]. *)
Definition material (barProps : gmap string JsVal) : gmap string JsVal :=
  ModeWrapper.materialProps (modeProps (FluidGlass.modeProps barProps)).

Definition glb : string := "/assets/3d/bar.glb".

(** [lockToBottom] and [followPointer={false}] *)
Definition lockToBottom : bool := true.
Definition followPointer : bool := false.

End Bar.

(** ** function Lens *)

Module Lens.

Definition glb : string := "/assets/3d/lens.glb".
Definition geometryKey : string := "Cylinder".

(** [followPointer]; [lockToBottom] keeps the default [false] of
    [ModeWrapper]. *)
Definition followPointer : bool := true.
Definition lockToBottom : bool := false.

(** [modeProps={modeProps}]: handed on unchanged. *)
Definition material (lensProps : gmap string JsVal) : gmap string JsVal :=
  ModeWrapper.materialProps (FluidGlass.modeProps lensProps).

End Lens.

(** ** function Cube *)

Module Cube.

Definition glb : string := "/assets/3d/cube.glb".
Definition geometryKey : string := "Cube".

Definition followPointer : bool := true.
Definition lockToBottom : bool := false.

Definition material (cubeProps : gmap string JsVal) : gmap string JsVal :=
  ModeWrapper.materialProps (FluidGlass.modeProps cubeProps).

End Cube.

(** ** The glass mesh that [FluidGlass] mounts for a mode *)

Module Glass.

Import FluidGlass.

Definition geometryKey (mode : string) : string :=
  match Wrapper mode with
  | BarWrapper => Bar.geometryKey
  | CubeWrapper => Cube.geometryKey
  | LensWrapper => Lens.geometryKey
  end.

Definition glb (mode : string) : string :=
  match Wrapper mode with
  | BarWrapper => Bar.glb
  | CubeWrapper => Cube.glb
  | LensWrapper => Lens.glb
  end.

(** Props of the transmission material, from the three override objects. *)
Definition material (mode : string)
    (lensProps barProps cubeProps : gmap string JsVal) : gmap string JsVal :=
  let raw := rawOverrides mode lensProps barProps cubeProps in
  match Wrapper mode with
  | BarWrapper => Bar.material raw
  | CubeWrapper => Cube.material raw
  | LensWrapper => Lens.material raw
  end.

(** Position the mesh damps toward in one frame. *)
Definition dest (mode : string) (pointer_x pointer_y v_width v_height : Q)
    : Q * Q * Q :=
  match Wrapper mode with
  | BarWrapper =>
      ModeWrapper.dest Bar.followPointer Bar.lockToBottom
        pointer_x pointer_y v_width v_height
  | CubeWrapper =>
      ModeWrapper.dest Cube.followPointer Cube.lockToBottom
        pointer_x pointer_y v_width v_height
  | LensWrapper =>
      ModeWrapper.dest Lens.followPointer Lens.lockToBottom
        pointer_x pointer_y v_width v_height
  end.

End Glass.

(** ** function App: the one caller of [FluidGlass] *)

Module App.

(** [mode="lens"] *)
Definition mode : string := "lens".

(** [lensProps={{ navItems: [...] }}] *)
Definition lensProps : gmap string JsVal :=
  <["navItems" :=
      VNav [ {| label := "Home"; link := "#home" |};
             {| label := "About"; link := "#about" |};
             {| label := "Projects"; link := "#projects" |};
             {| label := "Contact"; link := "#contact" |} ]]> ∅.

(** [barProps] and [cubeProps] are not passed and default to [{}]. *)
Definition barProps : gmap string JsVal := ∅.
Definition cubeProps : gmap string JsVal := ∅.

End App.

(** ** function NavItems *)

Module NavItems.

Local Open Scope Q_scope.

(** A row of the [DEVICE] table; [max = None] is [Infinity]. *)
Record Row := { max : option Z; spacing : Q; fontSize : Q }.

Definition DEVICE (d : Device) : Row :=
  match d with
  | mobile => {| max := Some 639%Z; spacing := 0.2; fontSize := 0.035 |}
  | tablet => {| max := Some 1023%Z; spacing := 0.24; fontSize := 0.045 |}
  | desktop => {| max := None; spacing := 0.3; fontSize := 0.045 |}
  end.

(** [w <= m] where [m] may be [Infinity]. *)
Definition le_max (w : Z) (m : option Z) : bool :=
  match m with
  | Some z => (w <=? z)%Z
  | None => true
  end.

Definition getDevice (innerWidth : Z) : Device :=
  let w := innerWidth in
  if le_max w (max (DEVICE mobile)) then mobile
  else if le_max w (max (DEVICE tablet)) then tablet
  else desktop.

(** [(i - (items.length - 1) / 2) * spacing] *)
Definition childX (items : list NavItem) (spacing : Q) (i : nat) : Q :=
  (inject_Z (Z.of_nat i) - (inject_Z (Z.of_nat (length items)) - 1) / 2) * spacing.

(** The frame callback writes [position.x] of every child of the group;
    the group has one [Text] child per item, in order. *)
Definition layout (items : list NavItem) (spacing : Q) : list Q :=
  imap (fun i _ => childX items spacing i) items.

Definition frame (items : list NavItem) (device : Device) : list Q :=
  layout items (spacing (DEVICE device)).

(** [group.current.position.set(0, -v.height / 2 + 0.2, 15.1)] *)
Definition groupPosition (v_height : Q) : Q * Q * Q :=
  (0, - v_height / 2 + 0.2, 15.1).

(** What a click on a label does to [window.location]. *)
Inductive Navigation :=
| Stay                     (* early return, nothing assigned *)
| SetHash (link : string)  (* window.location.hash = link *)
| SetHref (link : string). (* window.location.href = link *)

(** [if (!link) return;
     link.startsWith("#") ? (window.location.hash = link) : (window.location.href = link)];
    [None] is a missing [link], and the empty string is falsy as well. *)
Definition handleNavigate (link : option string) : Navigation :=
  match link with
  | None => Stay
  | Some l =>
      if String.eqb l "" then Stay
      else if String.prefix "#" l then SetHash l
      else SetHref l
  end.

(** [onClick] of the label of an item. *)
Definition onClick (item : NavItem) : Navigation :=
  handleNavigate (Some (link item)).

End NavItems.

(** ** ImageWithAspectRatio *)

Module ImageWithAspectRatio.

Local Open Scope Q_scope.

(** [texture.image]: pixel dimensions of the loaded picture. *)
Record Image := { width : Z; height : Z }.

(** [texture.image.width / texture.image.height] *)
Definition aspectRatio (image : Image) : Q :=
  inject_Z (width image) / inject_Z (height image).

(** [const isSelected = selectedImage === index] *)
Definition isSelected (selectedImage : option nat) (index : nat) : bool :=
  strictEq selectedImage index.

(** The three-way choice of the base scale:
    [if (desiredWidth) ... else if (desiredHeight) ... else ...]. *)
Definition baseScale (aspectRatio : Q) (desiredWidth desiredHeight : option Q)
    (viewport_width : Q) : Q * Q :=
  match truthy desiredWidth with
  | Some w => (w, w / aspectRatio)
  | None =>
      match truthy desiredHeight with
      | Some h => (h * aspectRatio, h)
      | None =>
          let scaleX := viewport_width * 0.4 in
          (scaleX, scaleX / aspectRatio)
      end
  end.

(** [Math.min(viewport.width / scaleX, viewport.height / scaleY, 1)] *)
Definition maxScaleFactor (viewport_width viewport_height scaleX scaleY : Q) : Q :=
  Qmin (Qmin (viewport_width / scaleX) (viewport_height / scaleY)) 1.

(** [scaleX] and [scaleY] as the render body leaves them:
    the base scale, then [scaleX *= maxScaleFactor; scaleY *= maxScaleFactor]. *)
Definition scale (aspectRatio : Q) (desiredWidth desiredHeight : option Q)
    (viewport_width viewport_height : Q) : Q * Q :=
  let '(scaleX, scaleY) :=
    baseScale aspectRatio desiredWidth desiredHeight viewport_width in
  let f := maxScaleFactor viewport_width viewport_height scaleX scaleY in
  (scaleX * f, scaleY * f).

(** Selected branch of the frame callback: the scale the mesh damps toward.
    [v_width], [v_height] are the extent of the viewport at depth 15. *)
Definition targetScale (aspectRatio : Q) (scaleXY : Q * Q)
    (v_width v_height : Q) : Q * Q :=
  let maxWidth := v_width * 0.8 in
  let maxHeight := v_height * 0.8 in
  let '(targetScaleX, targetScaleY) := scaleXY in
  let '(targetScaleX, targetScaleY) :=
    if gt targetScaleX maxWidth
    then (maxWidth, maxWidth / aspectRatio)
    else (targetScaleX, targetScaleY) in
  let '(targetScaleX, targetScaleY) :=
    if gt targetScaleY maxHeight
    then (maxHeight * aspectRatio, maxHeight)
    else (targetScaleX, targetScaleY) in
  (targetScaleX, targetScaleY).

(** The scale handed to [easing.damp3(meshRef.current.scale, ...)] in one
    frame, from the props of the image: the clamped target when the image is
    selected, [[scaleX, scaleY]] otherwise. *)
Definition frameTargetScale (image : Image) (desiredWidth desiredHeight : option Q)
    (index : nat) (selectedImage : option nat)
    (viewport_width viewport_height v_width v_height : Q) : Q * Q :=
  let a := aspectRatio image in
  let scaleXY := scale a desiredWidth desiredHeight viewport_width viewport_height in
  if isSelected selectedImage index
  then targetScale a scaleXY v_width v_height
  else scaleXY.

(** Selected branch: target of the position damping,
    [[0, -scroll.offset * (scroll.pages - 1) * viewport.height, 15]]. *)
Definition selectedPosition (scroll_offset scroll_pages viewport_height : Q)
    : Q * Q * Q :=
  let scrollY := scroll_offset * (scroll_pages - 1) * viewport_height in
  let targetX := 0 in
  let targetY := - scrollY in
  (targetX, targetY, 15).

(** Idle branch of the frame callback.  [Math.sin] and [Math.cos] are the
    real functions. *)
Section Idle.

Local Open Scope R_scope.

Definition floatOffsetX (time : R) (index : nat) : R :=
  sin (time * 0.4 + INR index * 0.5) * 0.1.

Definition floatOffsetY (time : R) (index : nat) : R :=
  cos (time * 0.3 + INR index * 0.08).

Definition floatOffsetZ (time : R) (index : nat) : R :=
  sin (time * 0.5 + INR index * 0.7) * 0.2.

Definition targetPosition (position : R * R * R) (time : R) (index : nat) : R * R * R :=
  let '(p0, p1, p2) := position in
  (p0 + floatOffsetX time index,
   p1 + floatOffsetY time index,
   p2 + floatOffsetZ time index).

End Idle.

End ImageWithAspectRatio.

(** ** ImageWithAspectRatio, lines 271-292 on IEEE doubles *)

Module ImageWithAspectRatio64.

Import PrimFloat.

Local Open Scope float_scope.

(** A decimal literal denotes the nearest double, as in JavaScript. *)
#[local] Set Warnings "-inexact-float".

(** [texture.image]: pixel dimensions, as the numbers JavaScript holds. *)
Record Image := { width : float; height : float }.

(** [texture.image.width / texture.image.height] *)
Definition aspectRatio (image : Image) : float :=
  width image / height image.

(** Truthiness of an optional numeric prop: [undefined], [0], [-0] and
    [NaN] are falsy. *)
Definition truthy (o : option float) : option float :=
  match o with
  | Some x => if (x =? 0) || is_nan x then None else Some x
  | None => None
  end.

(** [Math.min] of two numbers: [NaN] when either is [NaN], and [-0] counts
    as smaller than [+0]. *)
Definition min2 (x y : float) : float :=
  if is_nan x || is_nan y then nan
  else if x <? y then x
  else if y <? x then y
  else if get_sign x then x else y.

Definition baseScale (aspectRatio : float) (desiredWidth desiredHeight : option float)
    (viewport_width : float) : float * float :=
  match truthy desiredWidth with
  | Some w => (w, w / aspectRatio)
  | None =>
      match truthy desiredHeight with
      | Some h => (h * aspectRatio, h)
      | None =>
          let scaleX := viewport_width * 0.4 in
          (scaleX, scaleX / aspectRatio)
      end
  end.

(** [Math.min(viewport.width / scaleX, viewport.height / scaleY, 1)] *)
Definition maxScaleFactor (viewport_width viewport_height scaleX scaleY : float)
    : float :=
  min2 (min2 (viewport_width / scaleX) (viewport_height / scaleY)) 1.

(** [scaleX *= maxScaleFactor; scaleY *= maxScaleFactor] *)
Definition scale (aspectRatio : float) (desiredWidth desiredHeight : option float)
    (viewport_width viewport_height : float) : float * float :=
  let '(scaleX, scaleY) :=
    baseScale aspectRatio desiredWidth desiredHeight viewport_width in
  let f := maxScaleFactor viewport_width viewport_height scaleX scaleY in
  (scaleX * f, scaleY * f).

End ImageWithAspectRatio64.

(** ** function Images *)

Module Images.

Local Open Scope Q_scope.

Record Config := {
  url : string;
  position : Q * Q * Q;
  desiredWidth : option Q;
  desiredHeight : option Q
}.

(** The fixed gallery, laid out from the viewport extent; no entry sets
    [desiredHeight]. *)
Definition imageConfig (width height : Q) : list Config :=
  [ {| url := "/assets/images/bild3.png"; position := (- width * 0.32, - height * 0.1, 0.8);
       desiredWidth := Some (width * 0.32); desiredHeight := None |};
    {| url := "/assets/images/obst2.png"; position := (width * 0.38, - height * 0.25, - 0.2);
       desiredWidth := Some (width * 0.36); desiredHeight := None |};
    {| url := "/assets/images/bild1.png"; position := (- width * 0.18, - height * 0.48, 1.2);
       desiredWidth := Some (width * 0.4); desiredHeight := None |};
    {| url := "/assets/images/obst4.png"; position := (width * 0.42, - height * 0.72, - 1.1);
       desiredWidth := Some (width * 0.3); desiredHeight := None |};
    {| url := "/assets/images/obst1.png"; position := (- width * 0.4, - height * 0.95, 0.5);
       desiredWidth := Some (width * 0.34); desiredHeight := None |};
    {| url := "/assets/images/bild4.png"; position := (width * 0.22, - height * 1.22, - 0.8);
       desiredWidth := Some (width * 0.38); desiredHeight := None |};
    {| url := "/assets/images/obst3.png"; position := (- width * 0.35, - height * 1.52, 0.3);
       desiredWidth := Some (width * 0.37); desiredHeight := None |};
    {| url := "/assets/images/bild2.png"; position := (width * 0.28, - height * 1.82, - 0.5);
       desiredWidth := Some (width * 0.4); desiredHeight := None |} ].

(** [useState(null)]: the selected index, or [None] for [null]. *)
Definition Selection := option nat.

Definition initial : Selection := None.

(** [setSelectedImage(selectedImage === index ? null : index)] *)
Definition handleImageClick (selectedImage : Selection) (index : nat) : Selection :=
  if strictEq selectedImage index then None else Some index.

(** [if (e.target.tagName === 'CANVAS') setSelectedImage(null)] *)
Definition handleGlobalClick (selectedImage : Selection) (tagName : string) : Selection :=
  if String.eqb tagName "CANVAS" then None else selectedImage.

(** [if (e.key === 'Escape') setSelectedImage(null)] *)
Definition handleKeyDown (selectedImage : Selection) (key : string) : Selection :=
  if String.eqb key "Escape" then None else selectedImage.

Inductive Event :=
| ImageClick (index : nat)        (* onClick of the mesh of image [index] *)
| WindowClick (tagName : string)  (* 'click' on window, with the target's tag *)
| KeyDown (key : string).         (* 'keydown' on window *)

Definition backgroundClick : Event := WindowClick "CANVAS".
Definition escape : Event := KeyDown "Escape".

Definition step (selectedImage : Selection) (e : Event) : Selection :=
  match e with
  | ImageClick index => handleImageClick selectedImage index
  | WindowClick tagName => handleGlobalClick selectedImage tagName
  | KeyDown key => handleKeyDown selectedImage key
  end.

Definition run (events : list Event) : Selection :=
  fold_left step events initial.

(** Indices of the images that render as selected, among [n] images. *)
Definition selectedIndices (selectedImage : Selection) (n : nat) : list nat :=
  List.filter (ImageWithAspectRatio.isSelected selectedImage) (seq 0 n).

(** The dimming plane, rendered when [selectedImage !== null]: its position
    [[0, -scroll.offset * (scroll.pages - 1) * height, 14]] and its scale
    [[width * 4, height * 4, 1]]. *)
Definition backdrop (selectedImage : Selection)
    (scroll_offset scroll_pages width height : Q)
    : option ((Q * Q * Q) * (Q * Q * Q)) :=
  match selectedImage with
  | Some _ =>
      Some ((0, - scroll_offset * (scroll_pages - 1) * height, 14),
            (width * 4, height * 4, 1))
  | None => None
  end.

End Images.

(** ** function Typography *)

Module Typography.

Local Open Scope Q_scope.

Record Row := { titleFontSize : Q; smallFontSize : Q }.

Definition DEVICE (d : Device) : Row :=
  match d with
  | mobile => {| titleFontSize := 0.2 * 0.75; smallFontSize := 0.1 * 0.75 |}
  | tablet => {| titleFontSize := 0.32 * 0.75; smallFontSize := 0.12 * 0.75 |}
  | desktop => {| titleFontSize := 0.56 * 0.75; smallFontSize := 0.15 * 0.75 |}
  end.

Definition getDevice (innerWidth : Z) : Device :=
  let w := innerWidth in
  if (w <=? 639)%Z then mobile else if (w <=? 1023)%Z then tablet else desktop.

(** [Math.max(0, 1 - scrollProgress * 4)] with [scrollProgress = scroll.offset] *)
Definition titleOpacity (scroll_offset : Q) : Q :=
  let scrollProgress := scroll_offset in
  Qmax 0 (1 - scrollProgress * 4).

(** [visible={titleOpacity > 0}] *)
Definition visible (scroll_offset : Q) : bool :=
  gt (titleOpacity scroll_offset) 0.

End Typography.

(** * Vocabulary of the statements *)

Section Vocabulary.

Local Open Scope Q_scope.

(** The property [o] holds the number [q]. *)
Definition holdsNum (o : option JsVal) (q : Q) : Prop :=
  match o with
  | Some (VNum x) => x == q
  | _ => False
  end.

Definition holdsStr (o : option JsVal) (s : string) : Prop :=
  o = Some (VStr s).

(** The nine material parameters of the bar, for a given thickness. *)
Definition barDefaultsWithThickness (thickness : Q) (m : gmap string JsVal) : Prop :=
  holdsNum (m !! "ior") 1.15 /\
  holdsNum (m !! "thickness") thickness /\
  holdsNum (m !! "anisotropy") 0.01 /\
  holdsNum (m !! "chromaticAberration") 0.1 /\
  holdsNum (m !! "transmission") 1 /\
  holdsNum (m !! "roughness") 0 /\
  holdsStr (m !! "color") "#ffffff" /\
  holdsStr (m !! "attenuationColor") "#ffffff" /\
  holdsNum (m !! "attenuationDistance") 0.25.

(** The frame completes and leaves the number [q] as the mesh scale. *)
Definition completesWithScale (c : Completion JsVal) (q : Q) : Prop :=
  match c with
  | Normal (VNum x) => x == q
  | _ => False
  end.

Definition completes {A} (c : Completion A) : Prop :=
  match c with
  | Normal _ => True
  | Throw _ => False
  end.

(** An optional size prop that, when given, is a positive number. *)
Definition positiveIfSet (o : option Q) : Prop :=
  match o with
  | Some q => 0 < q
  | None => True
  end.

(** Sum of the x offsets written in one frame. *)
Definition sumQ (xs : list Q) : Q := fold_right Qplus 0 xs.

(** The props that [ModeWrapper] takes out of [modeProps] by name. *)
Definition namedProps : list string :=
  ["scale"; "ior"; "thickness"; "anisotropy"; "chromaticAberration"].

(** An event that no handler of [Images] reacts to: a window click whose
    target is not a canvas element, or a key other than Escape. *)
Definition inert (e : Images.Event) : bool :=
  match e with
  | Images.ImageClick _ => false
  | Images.WindowClick tagName => negb (String.eqb tagName "CANVAS")
  | Images.KeyDown key => negb (String.eqb key "Escape")
  end.


End Vocabulary.

(** * Properties *)

(** ** Comparisons and division on the rationals *)

Section Arithmetic.

Local Open Scope Q_scope.

Lemma gt_true_iff (x y : Q) : gt x y = true <-> y < x.
Proof.
  unfold gt. rewrite negb_true_iff, <- not_true_iff_false, Qle_bool_iff.
  split; [apply Qnot_le_lt | apply Qlt_not_le].
Qed.

Lemma gt_false_iff (x y : Q) : gt x y = false <-> x <= y.
Proof.
  unfold gt. rewrite negb_false_iff, Qle_bool_iff. reflexivity.
Qed.

Lemma Qdiv_pos (x y : Q) : 0 < x -> 0 < y -> 0 < x / y.
Proof.
  intros Hx Hy. apply Qlt_shift_div_l; [assumption | lra].
Qed.

Lemma Qdiv_mul_cancel (x y : Q) : 0 < y -> x / y * y == x.
Proof. intros Hy. field. lra. Qed.

End Arithmetic.

(** ** Breakpoints *)

Lemma NavItems_getDevice_cases (w : Z) :
  NavItems.getDevice w =
  if (w <=? 639)%Z then mobile else if (w <=? 1023)%Z then tablet else desktop.
Proof. reflexivity. Qed.

(** C1. For every window width [w] the breakpoint is [mobile] when
    [w <= 639], [tablet] when [640 <= w <= 1023] and [desktop] when
    [1024 <= w]; the navigation layout and the title controller compute the
    same breakpoint from the same width. *)
Theorem breakpoint_thresholds (w : Z) :
  NavItems.getDevice w = Typography.getDevice w /\
  ((w <= 639)%Z -> Typography.getDevice w = mobile) /\
  ((640 <= w <= 1023)%Z -> Typography.getDevice w = tablet) /\
  ((1024 <= w)%Z -> Typography.getDevice w = desktop).
Proof.
  rewrite NavItems_getDevice_cases. unfold Typography.getDevice.
  split; [reflexivity|].
  destruct (Z.leb_spec w 639), (Z.leb_spec w 1023);
    repeat split; intros; first [reflexivity | lia].
Qed.

(** ** Glass material of the bar *)

(** C8, as stated, fails: with no overrides the bar's material has thickness
    10 (from [defaultMat]), not 5. *)
Lemma bar_thickness_is_not_5 :
  ~ barDefaultsWithThickness 5 (Bar.material ∅).
Proof.
  intros (_ & H & _). vm_compute in H. discriminate H.
Qed.

(** C8, amended. In bar mode with no per-mode overrides the material
    parameters are ior 1.15, thickness 10, anisotropy 0.01,
    chromaticAberration 0.1, transmission 1, roughness 0, color white,
    attenuation color white, attenuation distance 0.25. *)
Theorem bar_material_defaults (lensProps cubeProps : gmap string JsVal) :
  barDefaultsWithThickness 10
    (Bar.material (FluidGlass.rawOverrides "bar" lensProps ∅ cubeProps)).
Proof.
  change (FluidGlass.rawOverrides "bar" lensProps ∅ cubeProps)
    with (∅ : gmap string JsVal).
  repeat split; vm_compute; reflexivity.
Qed.

(** ** Title fade *)

Section TitleFade.

Local Open Scope Q_scope.

Lemma titleOpacity_high (s : Q) : s <= 0.25 -> Typography.titleOpacity s == 1 - s * 4.
Proof.
  intros Hs. unfold Typography.titleOpacity. apply Q.max_r. lra.
Qed.

Lemma titleOpacity_low (s : Q) : 0.25 <= s -> Typography.titleOpacity s == 0.
Proof.
  intros Hs. unfold Typography.titleOpacity. apply Q.max_l. lra.
Qed.

Lemma titleOpacity_nonneg (s : Q) : 0 <= Typography.titleOpacity s.
Proof. unfold Typography.titleOpacity. apply Q.le_max_l. Qed.

(** C2. For a scroll offset [s] in [0,1] the title's opacity is
    [max(0, 1 - 4*s)], and the title is invisible exactly when that opacity is
    0: opacity 1 at [s = 0], opacity 0 at [s = 0.25], and opacity 0 with
    visibility off for every [s > 0.25]. *)
Theorem title_opacity_fade (s : Q) :
  0 <= s <= 1 ->
  Typography.titleOpacity s == Qmax 0 (1 - 4 * s) /\
  (Typography.visible s = false <-> Typography.titleOpacity s == 0) /\
  (s == 0 -> Typography.titleOpacity s == 1) /\
  (s == 0.25 -> Typography.titleOpacity s == 0) /\
  (0.25 < s -> Typography.titleOpacity s == 0 /\ Typography.visible s = false).
Proof.
  intros _.
  assert (Hvis : Typography.visible s = false <-> Typography.titleOpacity s == 0).
  { unfold Typography.visible. rewrite gt_false_iff.
    pose proof (titleOpacity_nonneg s). split; intros; lra. }
  repeat split.
  - unfold Typography.titleOpacity.
    assert (E : 1 - s * 4 == 1 - 4 * s) by ring. now rewrite E.
  - apply Hvis.
  - apply Hvis.
  - intros E. rewrite titleOpacity_high by lra. lra.
  - intros E. apply titleOpacity_low. lra.
  - apply titleOpacity_low. lra.
  - apply Hvis, titleOpacity_low. lra.
Qed.

Lemma title_opacity_fade_witness :
  Typography.titleOpacity 0.1 == Qmax 0 (1 - 4 * 0.1) /\
  (Typography.visible 0.1 = false <-> Typography.titleOpacity 0.1 == 0) /\
  (0.1 == 0 -> Typography.titleOpacity 0.1 == 1) /\
  (0.1 == 0.25 -> Typography.titleOpacity 0.1 == 0) /\
  (0.25 < 0.1 -> Typography.titleOpacity 0.1 == 0 /\ Typography.visible 0.1 = false).
Proof.
  apply (title_opacity_fade 0.1). split; lra.
Defined.

End TitleFade.

(** ** Selection of an image *)

Lemma selectedIndices_none (n : nat) : Images.selectedIndices None n = [].
Proof.
  unfold Images.selectedIndices. induction n as [|n IH]; [reflexivity|].
  rewrite seq_S, List.filter_app, IH. reflexivity.
Qed.

Lemma selectedIndices_some (i n : nat) :
  Images.selectedIndices (Some i) n = if (i <? n)%nat then [i] else [].
Proof.
  unfold Images.selectedIndices. induction n as [|n IH]; [reflexivity|].
  rewrite seq_S, List.filter_app, IH.
  change (List.filter (ImageWithAspectRatio.isSelected (Some i)) [(0 + n)%nat])
    with (if Nat.eqb i n then [n] else @nil nat).
  destruct (Nat.eqb_spec i n) as [E|Hne];
    destruct (Nat.ltb_spec i n), (Nat.ltb_spec i (S n));
    try lia; subst; reflexivity.
Qed.

Lemma run_snoc (events : list Images.Event) (e : Images.Event) :
  Images.run (events ++ [e]) = Images.step (Images.run events) e.
Proof. unfold Images.run. rewrite fold_left_app. reflexivity. Qed.

(** C3. After any finite sequence of image clicks, background clicks and
    Escape presses from the empty selection, at most one image renders as
    selected; clicking the selected image clears the selection, clicking
    another image makes it the sole selection, and a background click or
    Escape clears the selection. *)
Theorem single_selection (events : list Images.Event) (n : nat) :
  (length (Images.selectedIndices (Images.run events) n) <= 1)%nat /\
  (forall i, Images.run events = Some i ->
     Images.run (events ++ [Images.ImageClick i]) = None) /\
  (forall i, Images.run events <> Some i ->
     Images.run (events ++ [Images.ImageClick i]) = Some i /\
     ((i < n)%nat ->
      Images.selectedIndices (Images.run (events ++ [Images.ImageClick i])) n = [i])) /\
  Images.run (events ++ [Images.backgroundClick]) = None /\
  Images.run (events ++ [Images.escape]) = None.
Proof.
  split; [|split; [|split; [|split]]].
  - destruct (Images.run events) as [i|].
    + rewrite selectedIndices_some. destruct (i <? n)%nat; cbn; lia.
    + rewrite selectedIndices_none. cbn; lia.
  - intros i Hi. rewrite run_snoc, Hi. cbn.
    unfold Images.handleImageClick. cbn. now rewrite Nat.eqb_refl.
  - intros i Hi. rewrite run_snoc. cbn.
    assert (E : Images.handleImageClick (Images.run events) i = Some i).
    { unfold Images.handleImageClick.
      destruct (Images.run events) as [j|]; cbn; [|reflexivity].
      destruct (Nat.eqb_spec j i) as [->|]; [congruence | reflexivity]. }
    rewrite E. split; [reflexivity|].
    intros Hlt. rewrite selectedIndices_some.
    destruct (Nat.ltb_spec i n); [reflexivity | lia].
  - rewrite run_snoc. reflexivity.
  - rewrite run_snoc. reflexivity.
Qed.

(** ** Navigation items *)

(** C10. When the override object of the mode has no [navItems], the
    navigation list is Home/#home, About/#about, Contact/#contact in this
    order; a list given under [navItems] replaces that default. *)
Theorem navItems_default (raw : gmap string JsVal) :
  (raw !! "navItems" = None ->
   FluidGlass.navItems raw =
   VNav [ {| label := "Home"; link := "#home" |};
          {| label := "About"; link := "#about" |};
          {| label := "Contact"; link := "#contact" |} ]) /\
  (forall items : list NavItem,
     raw !! "navItems" = Some (VNav items) ->
     FluidGlass.navItems raw = VNav items).
Proof.
  unfold FluidGlass.navItems. split.
  - intros ->. reflexivity.
  - intros items ->. reflexivity.
Qed.

(** ** Centering of the navigation labels *)

Section NavLayout.

Local Open Scope Q_scope.

Lemma inject_Z_of_nat_S (n : nat) :
  inject_Z (Z.of_nat (S n)) == inject_Z (Z.of_nat n) + 1.
Proof.
  rewrite Nat2Z.inj_succ, <- Z.add_1_r, inject_Z_plus. reflexivity.
Qed.

(** Offsets [(k + j - c) * s] for [j] below [n], summed in closed form. *)
Lemma sumQ_offsets (c s : Q) (n k : nat) :
  sumQ (List.map (fun i => (inject_Z (Z.of_nat i) - c) * s) (seq k n)) ==
  (inject_Z (Z.of_nat n) * (inject_Z (Z.of_nat k) - c)
   + inject_Z (Z.of_nat n) * (inject_Z (Z.of_nat n) - 1) / 2) * s.
Proof.
  revert k. induction n as [|n IH]; intros k.
  - cbn. field.
  - cbn [seq List.map sumQ fold_right].
    change (fold_right Qplus 0 ?l) with (sumQ l).
    rewrite IH, !inject_Z_of_nat_S. field.
Qed.

Lemma layout_as_map (items : list NavItem) (spacing : Q) :
  NavItems.layout items spacing =
  List.map (NavItems.childX items spacing) (seq 0 (length items)).
Proof.
  unfold NavItems.layout. rewrite <- imap_seq_0. reflexivity.
Qed.

(** C4. For a list of [N >= 1] nav items and a spacing [s], label [i] is put
    at [x = (i - (N-1)/2) * s], and these offsets sum to 0. *)
Theorem nav_labels_centered (items : list NavItem) (spacing : Q) :
  (1 <= length items)%nat ->
  (forall i : nat, (i < length items)%nat ->
     NavItems.layout items spacing !! i =
     Some ((inject_Z (Z.of_nat i) - (inject_Z (Z.of_nat (length items)) - 1) / 2) * spacing)) /\
  length (NavItems.layout items spacing) = length items /\
  sumQ (NavItems.layout items spacing) == 0.
Proof.
  intros _. split; [|split].
  - intros i Hi. unfold NavItems.layout. rewrite list_lookup_imap.
    destruct (lookup_lt_is_Some_2 items i Hi) as [x ->]. reflexivity.
  - apply length_imap.
  - rewrite layout_as_map. unfold NavItems.childX.
    rewrite sumQ_offsets. change (inject_Z (Z.of_nat 0)) with 0. field.
Qed.

Lemma nav_labels_centered_witness :
  let items := FluidGlass.defaultNavItems in
  (forall i : nat, (i < length items)%nat ->
     NavItems.layout items 0.3 !! i =
     Some ((inject_Z (Z.of_nat i) - (inject_Z (Z.of_nat (length items)) - 1) / 2) * 0.3)) /\
  length (NavItems.layout items 0.3) = length items /\
  sumQ (NavItems.layout items 0.3) == 0.
Proof.
  apply (nav_labels_centered FluidGlass.defaultNavItems 0.3). cbn. lia.
Defined.

End NavLayout.

(** ** Scale of an image *)

Section ImageScale.

Local Open Scope Q_scope.

Import ImageWithAspectRatio.

Lemma aspectRatio_pos (image : Image) :
  (0 < width image)%Z -> (0 < height image)%Z -> 0 < aspectRatio image.
Proof.
  intros Hw Hh. rewrite Zlt_Qlt in Hw, Hh.
  unfold aspectRatio. now apply Qdiv_pos.
Qed.

Lemma truthy_positive (o : option Q) :
  positiveIfSet o -> truthy o = o.
Proof.
  destruct o as [q|]; [|reflexivity]. cbn. intros Hq.
  destruct (Qeq_bool q 0) eqn:E; [|reflexivity].
  apply Qeq_bool_iff in E. lra.
Qed.

(** The base scale is positive and in the ratio of the picture. *)
Lemma baseScale_ratio (a : Q) (dw dh : option Q) (vw : Q) :
  0 < a -> positiveIfSet dw -> positiveIfSet dh -> 0 < vw ->
  0 < fst (baseScale a dw dh vw) /\
  0 < snd (baseScale a dw dh vw) /\
  fst (baseScale a dw dh vw) == a * snd (baseScale a dw dh vw).
Proof.
  intros Ha Hdw Hdh Hvw. unfold baseScale.
  rewrite (truthy_positive dw Hdw), (truthy_positive dh Hdh).
  destruct dw as [w|]; [|destruct dh as [h|]]; cbn [fst snd] in *.
  - repeat split; [assumption | now apply Qdiv_pos | field; lra].
  - repeat split; [now apply Qmult_lt_0_compat | assumption | ring].
  - assert (0 < vw * 0.4) by lra.
    repeat split; [assumption | now apply Qdiv_pos | field; lra].
Qed.

Lemma maxScaleFactor_bounds (vw vh sx sy : Q) :
  0 < vw -> 0 < vh -> 0 < sx -> 0 < sy ->
  0 < maxScaleFactor vw vh sx sy /\
  maxScaleFactor vw vh sx sy <= 1 /\
  sx * maxScaleFactor vw vh sx sy <= vw /\
  sy * maxScaleFactor vw vh sx sy <= vh.
Proof.
  intros Hvw Hvh Hsx Hsy. unfold maxScaleFactor.
  set (f := Qmin (Qmin (vw / sx) (vh / sy)) 1).
  assert (Hf1 : f <= 1) by apply Q.le_min_r.
  assert (Hfx : f <= vw / sx).
  { eapply Qle_trans; [apply Q.le_min_l | apply Q.le_min_l]. }
  assert (Hfy : f <= vh / sy).
  { eapply Qle_trans; [apply Q.le_min_l | apply Q.le_min_r]. }
  assert (Hf0 : 0 < f).
  { unfold f. apply Q.min_glb_lt; [apply Q.min_glb_lt|]; try lra;
      now apply Qdiv_pos. }
  repeat split; try assumption.
  - rewrite Qmult_comm, <- (Qdiv_mul_cancel vw sx Hsx).
    apply Qmult_le_compat_r; [assumption | lra].
  - rewrite Qmult_comm, <- (Qdiv_mul_cancel vh sy Hsy).
    apply Qmult_le_compat_r; [assumption | lra].
Qed.

Lemma scale_unfold (a : Q) (dw dh : option Q) (vw vh : Q) :
  scale a dw dh vw vh =
  (fst (baseScale a dw dh vw) *
     maxScaleFactor vw vh (fst (baseScale a dw dh vw)) (snd (baseScale a dw dh vw)),
   snd (baseScale a dw dh vw) *
     maxScaleFactor vw vh (fst (baseScale a dw dh vw)) (snd (baseScale a dw dh vw))).
Proof.
  unfold scale. destruct (baseScale a dw dh vw). reflexivity.
Qed.

(** The selected clamp on any scale that is in the ratio [a]. *)
Lemma targetScale_ratio (a sx sy cw ch : Q) :
  0 < a -> 0 < sy -> sx == a * sy -> 0 < cw -> 0 < ch ->
  fst (targetScale a (sx, sy) cw ch) / snd (targetScale a (sx, sy) cw ch) == a /\
  fst (targetScale a (sx, sy) cw ch) <= 0.8 * cw /\
  snd (targetScale a (sx, sy) cw ch) <= 0.8 * ch.
Proof.
  intros Ha Hsy Hr Hcw Hch. unfold targetScale.
  assert (HW : 0 < cw * 0.8) by lra.
  assert (HH : 0 < ch * 0.8) by lra.
  set (maxWidth := cw * 0.8) in *. set (maxHeight := ch * 0.8) in *.
  assert (EW : 0.8 * cw == maxWidth) by (unfold maxWidth; ring).
  assert (EH : 0.8 * ch == maxHeight) by (unfold maxHeight; ring).
  rewrite EW, EH.
  destruct (gt sx maxWidth) eqn:E1.
  - destruct (gt (maxWidth / a) maxHeight) eqn:E2; cbn [fst snd].
    + apply gt_true_iff in E2.
      apply (Qmult_lt_compat_r _ _ a Ha) in E2.
      rewrite (Qdiv_mul_cancel maxWidth a Ha) in E2.
      repeat split; [field; lra | lra | lra].
    + apply gt_false_iff in E2.
      repeat split; [field; lra | lra | assumption].
  - apply gt_false_iff in E1.
    destruct (gt sy maxHeight) eqn:E2; cbn [fst snd].
    + apply gt_true_iff in E2.
      apply (Qmult_lt_compat_r _ _ a Ha) in E2.
      assert (sx == sy * a) by (rewrite Hr; ring).
      repeat split; [field; lra | lra | lra].
    + apply gt_false_iff in E2.
      repeat split; [rewrite Hr; field; lra | assumption | assumption].
Qed.

(** C6. For a selected picture of aspect ratio [a] and any positive viewport,
    the target scale after the clamp to 80% of the viewport satisfies
    [targetScaleX / targetScaleY = a], [targetScaleX <= 0.8 * viewportWidth]
    and [targetScaleY <= 0.8 * viewportHeight]. *)
Theorem selected_scale_keeps_aspect (image : Image)
    (desiredWidth desiredHeight : option Q) (index : nat) (selectedImage : option nat)
    (viewport_width viewport_height v_width v_height : Q) :
  isSelected selectedImage index = true ->
  (0 < width image)%Z -> (0 < height image)%Z ->
  positiveIfSet desiredWidth -> positiveIfSet desiredHeight ->
  0 < viewport_width -> 0 < viewport_height ->
  0 < v_width -> 0 < v_height ->
  let t := frameTargetScale image desiredWidth desiredHeight index selectedImage
             viewport_width viewport_height v_width v_height in
  fst t / snd t == aspectRatio image /\
  fst t <= 0.8 * v_width /\ snd t <= 0.8 * v_height.
Proof.
  intros Hsel Hw Hh Hdw Hdh Hvw Hvh Hcw Hch t. subst t.
  unfold frameTargetScale. rewrite Hsel. cbv zeta.
  pose proof (aspectRatio_pos image Hw Hh) as Ha.
  set (a := aspectRatio image) in *.
  destruct (baseScale_ratio a desiredWidth desiredHeight viewport_width
              Ha Hdw Hdh Hvw) as (Hbx & Hby & Hratio).
  destruct (maxScaleFactor_bounds viewport_width viewport_height
              _ _ Hvw Hvh Hbx Hby) as (Hf & _ & _ & _).
  rewrite scale_unfold.
  set (f := maxScaleFactor _ _ _ _) in *. clearbody f.
  apply targetScale_ratio; try assumption.
  - now apply Qmult_lt_0_compat.
  - rewrite Hratio. ring.
Qed.

Lemma selected_scale_keeps_aspect_witness :
  let image := {| width := 1080; height := 1920 |} in
  let t := frameTargetScale image None (Some 4) 3 (Some 3%nat) 8 5 2 1 in
  fst t / snd t == aspectRatio image /\
  fst t <= 0.8 * 2 /\ snd t <= 0.8 * 1.
Proof.
  apply (selected_scale_keeps_aspect {| width := 1080; height := 1920 |}
           None (Some 4) 3 (Some 3%nat) 8 5 2 1);
    cbn; first [reflexivity | lia | lra | exact I].
Defined.

End ImageScale.

(** ** The viewport clamp on the doubles the code computes *)

Section ImageScaleDoubles.

Import PrimFloat.

Local Open Scope float_scope.

#[local] Set Warnings "-inexact-float".

(** C5, evaluated on binary64.  Multiplying by [viewport.width / scaleX]
    does not bring [scaleX] back to [viewport.width]: the quotient and the
    product are both rounded.  For a square picture, [desiredWidth] 187 and
    a viewport of 3 by 1000 the clamped width is 3.0000000000000004, above
    the viewport width 3.  For the gallery entry of width 38% of the
    viewport, a picture of 526 by 5212 pixels and the viewport of a window
    of 3483 by 943 pixels under the scene's camera (19.4505047336967 by
    5.266099903495833), the clamped height is 5.266099903495834, above the
    viewport height. *)
Theorem scale_exceeds_viewport_in_doubles :
  let square := {| ImageWithAspectRatio64.width := 100;
                   ImageWithAspectRatio64.height := 100 |} in
  let s1 := ImageWithAspectRatio64.scale
              (ImageWithAspectRatio64.aspectRatio square) (Some 187) None 3 1000 in
  let tall := {| ImageWithAspectRatio64.width := 526;
                 ImageWithAspectRatio64.height := 5212 |} in
  let vw := 19.4505047336967 in
  let vh := 5.266099903495833 in
  let s2 := ImageWithAspectRatio64.scale
              (ImageWithAspectRatio64.aspectRatio tall) (Some (vw * 0.38)) None vw vh in
  fst s1 = 3.0000000000000004 /\ (3 <? fst s1) = true /\
  snd s2 = 5.266099903495834 /\ (vh <? snd s2) = true /\
  (fst s2 <=? vw) = true.
Proof.
  vm_compute. repeat split; reflexivity.
Qed.

End ImageScaleDoubles.

(** ** Glass mesh without its named geometry *)

Section MissingGeometry.

Local Open Scope Q_scope.

Lemma geoWidthEffect_absent (nodes : gmap string ModeWrapper.Node)
    (geometryKey : string) (current : Q) :
  nodes !! geometryKey = None ->
  ModeWrapper.geoWidthEffect nodes geometryKey current = Normal current.
Proof.
  intros H. unfold ModeWrapper.geoWidthEffect. rewrite H. reflexivity.
Qed.

(** A plain [nodes[geometryKey].geometry] would throw on a missing node. *)
Lemma member_absent_throws (nodes : gmap string ModeWrapper.Node)
    (geometryKey : string) :
  nodes !! geometryKey = None ->
  member (nodes !! geometryKey) ModeWrapper.geometry = Throw "TypeError" /\
  optMember (nodes !! geometryKey) ModeWrapper.geometry = Normal None.
Proof. intros ->. split; reflexivity. Qed.

(** The effect never throws, whatever the model contains. *)
Lemma geoWidthEffect_completes (nodes : gmap string ModeWrapper.Node)
    (geometryKey : string) (current : Q) :
  completes (ModeWrapper.geoWidthEffect nodes geometryKey current).
Proof.
  unfold ModeWrapper.geoWidthEffect.
  destruct (nodes !! geometryKey) as [[[g|]]|]; exact I.
Qed.

(** The computed scale never exceeds the cap. *)
Lemma frameScale_capped (modeProps : gmap string JsVal) (v_width geoWidth : Q)
    (meshScale : JsVal) :
  nullish (modeProps !! "scale") = true ->
  exists x, ModeWrapper.frameScale modeProps v_width geoWidth meshScale = VNum x
            /\ x <= 0.15.
Proof.
  intros H. unfold ModeWrapper.frameScale. rewrite H.
  eexists. split; [reflexivity | apply Q.le_min_l].
Qed.

(** C7, as stated, fails: with an empty model, no overrides and a viewport of
    width 1 the frame leaves the scale at 0.15, not at 1. *)
Lemma missing_geometry_scale_is_not_1 :
  (∅ : gmap string ModeWrapper.Node) !! "Cube" = None /\
  nullish ((∅ : gmap string JsVal) !! "scale") = true /\
  ~ completesWithScale (ModeWrapper.scaleAfterFrame ∅ "Cube" ∅ 1) 1.
Proof.
  split; [reflexivity|]. split; [reflexivity|].
  vm_compute. discriminate.
Qed.

(** C7, amended. When the named sub-geometry is absent from the loaded model
    and no scale override is given, the geometry width used for sizing stays
    at its default 1, the frame update completes without throwing, and it
    sets the scale of the glass mesh to [min(0.15, 0.9 * viewportWidth)]. *)
Theorem missing_geometry_unit_width (nodes : gmap string ModeWrapper.Node)
    (geometryKey : string) (modeProps : gmap string JsVal) (v_width : Q) :
  nodes !! geometryKey = None ->
  nullish (modeProps !! "scale") = true ->
  ModeWrapper.geoWidthEffect nodes geometryKey ModeWrapper.geoWidthRef_initial
    = Normal 1 /\
  completes (ModeWrapper.scaleAfterFrame nodes geometryKey modeProps v_width) /\
  completesWithScale
    (ModeWrapper.scaleAfterFrame nodes geometryKey modeProps v_width)
    (Qmin 0.15 (0.9 * v_width)).
Proof.
  intros Hkey Hscale.
  unfold ModeWrapper.scaleAfterFrame.
  rewrite (geoWidthEffect_absent nodes geometryKey _ Hkey).
  split; [reflexivity|]. cbn.
  unfold ModeWrapper.frameScale. rewrite Hscale. cbn.
  split; [exact I|].
  assert (E : v_width * 0.9 / ModeWrapper.geoWidthRef_initial == 0.9 * v_width).
  { unfold ModeWrapper.geoWidthRef_initial. field. }
  now rewrite E.
Qed.

Lemma missing_geometry_unit_width_witness :
  ModeWrapper.geoWidthEffect ∅ Bar.geometryKey ModeWrapper.geoWidthRef_initial
    = Normal 1 /\
  completes (ModeWrapper.scaleAfterFrame ∅ Bar.geometryKey (Bar.modeProps ∅) 2) /\
  completesWithScale
    (ModeWrapper.scaleAfterFrame ∅ Bar.geometryKey (Bar.modeProps ∅) 2)
    (Qmin 0.15 (0.9 * 2)).
Proof.
  apply (missing_geometry_unit_width ∅ Bar.geometryKey (Bar.modeProps ∅) 2);
    reflexivity.
Defined.

End MissingGeometry.

(** ** Idle float of an image *)

Section IdleFloat.

Local Open Scope R_scope.

Import ImageWithAspectRatio.

Lemma floatOffsetX_bound (time : R) (index : nat) :
  Rabs (floatOffsetX time index) <= 0.1.
Proof.
  unfold floatOffsetX.
  pose proof (SIN_bound (time * 0.4 + INR index * 0.5)) as [Hl Hu].
  apply Rabs_le. lra.
Qed.

Lemma floatOffsetZ_bound (time : R) (index : nat) :
  Rabs (floatOffsetZ time index) <= 0.2.
Proof.
  unfold floatOffsetZ.
  pose proof (SIN_bound (time * 0.5 + INR index * 0.7)) as [Hl Hu].
  apply Rabs_le. lra.
Qed.

Lemma floatOffsetY_bound (time : R) (index : nat) :
  Rabs (floatOffsetY time index) <= 1.
Proof.
  unfold floatOffsetY.
  pose proof (COS_bound (time * 0.3 + INR index * 0.08)) as [Hl Hu].
  apply Rabs_le. lra.
Qed.

(** C9 at the first image and time 0: the vertical offset is a full world
    unit, five times the largest amplitude of the other two axes; the
    cosine of the y axis is not scaled. *)
Theorem idle_float_y_unscaled (position : R * R * R) :
  floatOffsetY 0 0 = 1 /\
  floatOffsetX 0 0 = 0 /\
  floatOffsetZ 0 0 = 0 /\
  targetPosition position 0 0 =
    (fst (fst position), snd (fst position) + 1, snd position) /\
  ~ Rabs (floatOffsetY 0 0) <= 0.2.
Proof.
  assert (EY : floatOffsetY 0 0 = 1).
  { unfold floatOffsetY. cbn [INR].
    replace (0 * 0.3 + 0 * 0.08) with 0 by lra. apply cos_0. }
  assert (EX : floatOffsetX 0 0 = 0).
  { unfold floatOffsetX. cbn [INR].
    replace (0 * 0.4 + 0 * 0.5) with 0 by lra. rewrite sin_0. lra. }
  assert (EZ : floatOffsetZ 0 0 = 0).
  { unfold floatOffsetZ. cbn [INR].
    replace (0 * 0.5 + 0 * 0.7) with 0 by lra. rewrite sin_0. lra. }
  repeat split; try assumption.
  - destruct position as [[p0 p1] p2]. unfold targetPosition.
    rewrite EX, EY, EZ. cbn [fst snd]. f_equal; [f_equal|]; lra.
  - rewrite EY, Rabs_R1. lra.
Qed.

End IdleFloat.

(** * Further properties of the components *)

(** ** Which wrapper and which override object a mode selects *)

Section ModeDispatch.

Import FluidGlass.

(** X1. A mode other than ["bar"] and ["cube"] (the comparison is by exact
    string) mounts the lens: its geometry, the lens override object and no
    navigation row; the other two override objects are not read. *)
Theorem unknown_mode_is_lens (mode : string)
    (lensProps barProps cubeProps : gmap string JsVal) :
  mode <> "bar" -> mode <> "cube" ->
  Wrapper mode = LensWrapper /\
  rawOverrides mode lensProps barProps cubeProps = lensProps /\
  renderedNavItems mode lensProps barProps cubeProps = None /\
  Glass.geometryKey mode = "Cylinder" /\
  Glass.material mode lensProps barProps cubeProps = Lens.material lensProps.
Proof.
  intros Hbar Hcube.
  apply String.eqb_neq in Hbar, Hcube.
  unfold Glass.geometryKey, Glass.material, Wrapper, rawOverrides,
    renderedNavItems.
  rewrite Hbar, Hcube. repeat split; reflexivity.
Qed.

Lemma unknown_mode_is_lens_witness :
  Wrapper "Bar" = LensWrapper /\
  rawOverrides "Bar" ∅ (<["navItems" := VNav []]> ∅) ∅ = ∅ /\
  renderedNavItems "Bar" ∅ (<["navItems" := VNav []]> ∅) ∅ = None /\
  Glass.geometryKey "Bar" = "Cylinder" /\
  Glass.material "Bar" ∅ (<["navItems" := VNav []]> ∅) ∅ = Lens.material ∅.
Proof.
  apply (unknown_mode_is_lens "Bar" ∅ (<["navItems" := VNav []]> ∅) ∅);
    apply String.eqb_neq; reflexivity.
Defined.

End ModeDispatch.

(** ** Where the glass mesh goes *)

Section GlassPosition.

Local Open Scope Q_scope.

Lemma dest_following (px py vw vh : Q) :
  ModeWrapper.dest true false px py vw vh = (px * vw / 2, py * vh / 2, 15).
Proof. reflexivity. Qed.

Lemma Glass_dest_following (mode : string) (px py vw vh : Q) :
  mode <> "bar" ->
  Glass.dest mode px py vw vh = (px * vw / 2, py * vh / 2, 15).
Proof.
  intros Hbar. apply String.eqb_neq in Hbar.
  unfold Glass.dest, FluidGlass.Wrapper. rewrite Hbar.
  destruct (String.eqb mode "cube"); reflexivity.
Qed.

(** X2. Outside bar mode the glass follows the pointer: its target is
    [(pointer.x * v.width / 2, pointer.y * v.height / 2, 15)], and for a
    pointer in [-1,1]x[-1,1] it stays inside the viewport rectangle at that
    depth. *)
Theorem glass_follows_pointer_in_viewport (mode : string) (px py vw vh : Q) :
  mode <> "bar" ->
  -1 <= px <= 1 -> -1 <= py <= 1 -> 0 <= vw -> 0 <= vh ->
  let d := Glass.dest mode px py vw vh in
  d = (px * vw / 2, py * vh / 2, 15) /\
  - (vw / 2) <= fst (fst d) <= vw / 2 /\
  - (vh / 2) <= snd (fst d) <= vh / 2.
Proof.
  intros Hbar Hpx Hpy Hvw Hvh d. subst d.
  rewrite (Glass_dest_following mode px py vw vh Hbar). cbn [fst snd].
  split; [reflexivity|].
  assert (Hx : - vw <= px * vw <= vw) by nra.
  assert (Hy : - vh <= py * vh <= vh) by nra.
  assert (Ex : px * vw / 2 == (px * vw) * (1 # 2)) by field.
  assert (Ey : py * vh / 2 == (py * vh) * (1 # 2)) by field.
  assert (Ew : vw / 2 == vw * (1 # 2)) by field.
  assert (Eh : vh / 2 == vh * (1 # 2)) by field.
  rewrite Ex, Ey, Ew, Eh. repeat split; lra.
Qed.

Lemma glass_follows_pointer_in_viewport_witness :
  let d := Glass.dest "lens" (1 # 2) (-1) 4 2 in
  d = ((1 # 2) * 4 / 2, (-1) * 2 / 2, 15) /\
  - (4 / 2) <= fst (fst d) <= 4 / 2 /\
  - (2 / 2) <= snd (fst d) <= 2 / 2.
Proof.
  apply (glass_follows_pointer_in_viewport "lens" (1 # 2) (-1) 4 2);
    first [ apply String.eqb_neq; reflexivity | split; lra | lra ].
Defined.

(** X3. In bar mode the glass ignores the pointer: it sits at
    [(0, -v.height/2 + 0.2, 15)], and the navigation labels are placed at the
    same x and y, 0.1 nearer to the camera. *)
Theorem bar_glass_sits_under_labels (px py vw vh : Q) :
  Glass.dest "bar" px py vw vh = (0, - vh / 2 + 0.2, 15) /\
  fst (fst (NavItems.groupPosition vh)) = fst (fst (Glass.dest "bar" px py vw vh)) /\
  snd (fst (NavItems.groupPosition vh)) = snd (fst (Glass.dest "bar" px py vw vh)) /\
  snd (NavItems.groupPosition vh) - snd (Glass.dest "bar" px py vw vh) == 0.1.
Proof.
  repeat split; reflexivity.
Qed.

End GlassPosition.

(** ** Size of the glass mesh *)

Section GlassScale.

Local Open Scope Q_scope.

Import ModeWrapper.

Lemma orElse_nonzero (x d : Q) : ~ d == 0 -> ~ orElse x d == 0.
Proof.
  intros Hd. unfold orElse.
  destruct (Qeq_bool x 0) eqn:E; [assumption|].
  now apply Qeq_bool_neq.
Qed.

Lemma orElse_keeps (x d : Q) : ~ x == 0 -> orElse x d = x.
Proof.
  intros Hx. unfold orElse.
  destruct (Qeq_bool x 0) eqn:E; [|reflexivity].
  apply Qeq_bool_iff in E. contradiction.
Qed.

Lemma geoWidthEffect_present (nodes : gmap string Node) (geometryKey : string)
    (current : Q) (n : Node) (g : Geometry) :
  nodes !! geometryKey = Some n -> geometry n = Some g ->
  geoWidthEffect nodes geometryKey current =
  Normal (orElse (max_x (boundingBox g) - min_x (boundingBox g)) 1).
Proof.
  intros Hn Hg. unfold geoWidthEffect. rewrite Hn. cbn. rewrite Hg. reflexivity.
Qed.

(** X4. The width kept in [geoWidthRef] is never 0: starting from a non-zero
    value the effect completes with a non-zero width for every model, a
    geometry of zero extent in x being replaced by 1.  The frame callback
    therefore never divides by zero. *)
Theorem geoWidth_never_zero (nodes : gmap string Node) (geometryKey : string)
    (current : Q) :
  ~ current == 0 ->
  exists w : Q,
    geoWidthEffect nodes geometryKey current = Normal w /\ ~ w == 0 /\
    (forall (n : Node) (g : Geometry),
       nodes !! geometryKey = Some n -> geometry n = Some g ->
       max_x (boundingBox g) == min_x (boundingBox g) -> w = 1).
Proof.
  intros Hc. unfold geoWidthEffect.
  destruct (nodes !! geometryKey) as [[[g|]]|] eqn:Hn; cbn.
  - eexists. split; [reflexivity|]. split.
    + apply orElse_nonzero. discriminate.
    + intros n g' [= <-] [= <-] Heq. unfold orElse.
      assert (E : max_x (boundingBox g) - min_x (boundingBox g) == 0) by lra.
      apply Qeq_bool_iff in E. now rewrite E.
  - exists current. repeat split; try assumption. intros n g [= <-] [=].
  - exists current. repeat split; try assumption. intros n g [=].
Qed.

Lemma geoWidth_never_zero_witness :
  let flat := {| geometry := Some {| boundingBox := {| min_x := 2; max_x := 2 |} |} |} in
  exists w : Q,
    geoWidthEffect (<["Cube" := flat]> ∅) "Cube" geoWidthRef_initial = Normal w /\
    ~ w == 0 /\
    (forall (n : Node) (g : Geometry),
       (<["Cube" := flat]> ∅ : gmap string Node) !! "Cube" = Some n ->
       geometry n = Some g ->
       max_x (boundingBox g) == min_x (boundingBox g) -> w = 1).
Proof.
  intros flat.
  apply (geoWidth_never_zero (<["Cube" := flat]> ∅) "Cube" geoWidthRef_initial).
  unfold geoWidthRef_initial. lra.
Defined.

(** X5. With the named geometry present, of positive width, and no scale
    override, one frame leaves the mesh at a positive scale of at most 0.15,
    and a wider viewport never gives a smaller scale. *)
Theorem glass_scale_capped_and_monotone (nodes : gmap string Node)
    (geometryKey : string) (modeProps : gmap string JsVal)
    (v_width1 v_width2 : Q) (n : Node) (g : Geometry) :
  nodes !! geometryKey = Some n -> geometry n = Some g ->
  min_x (boundingBox g) < max_x (boundingBox g) ->
  nullish (modeProps !! "scale") = true ->
  0 < v_width1 -> v_width1 <= v_width2 ->
  exists s1 s2 : Q,
    scaleAfterFrame nodes geometryKey modeProps v_width1 = Normal (VNum s1) /\
    scaleAfterFrame nodes geometryKey modeProps v_width2 = Normal (VNum s2) /\
    0 < s1 /\ s1 <= s2 /\ s2 <= 0.15.
Proof.
  intros Hn Hg Hpos Hscale Hv1 Hv12.
  set (gw := max_x (boundingBox g) - min_x (boundingBox g)).
  assert (Hgw : 0 < gw) by (unfold gw; lra).
  unfold scaleAfterFrame.
  rewrite (geoWidthEffect_present nodes geometryKey _ n g Hn Hg).
  fold gw. rewrite orElse_keeps by lra. cbn.
  unfold frameScale. rewrite Hscale. cbv zeta.
  eexists _, _. split; [reflexivity|]. split; [reflexivity|].
  assert (Hd1 : 0 < v_width1 * 0.9 / gw) by (apply Qdiv_pos; lra).
  assert (Hd : v_width1 * 0.9 / gw <= v_width2 * 0.9 / gw).
  { unfold Qdiv. apply Qmult_le_compat_r; [lra|].
    apply Qlt_le_weak, Qinv_lt_0_compat, Hgw. }
  split; [apply Q.min_glb_lt; [lra | assumption]|].
  split; [apply Q.min_le_compat_l, Hd | apply Q.le_min_l].
Qed.

Lemma glass_scale_capped_and_monotone_witness :
  let box := {| geometry := Some {| boundingBox := {| min_x := -1; max_x := 3 |} |} |} in
  exists s1 s2 : Q,
    scaleAfterFrame (<["Cube" := box]> ∅) "Cube" ∅ (1 # 2) = Normal (VNum s1) /\
    scaleAfterFrame (<["Cube" := box]> ∅) "Cube" ∅ 2 = Normal (VNum s2) /\
    0 < s1 /\ s1 <= s2 /\ s2 <= 0.15.
Proof.
  intros box.
  apply (glass_scale_capped_and_monotone (<["Cube" := box]> ∅) "Cube" ∅ (1 # 2) 2 box
           {| boundingBox := {| min_x := -1; max_x := 3 |} |});
    first [reflexivity | cbn; lra].
Defined.

(** X6. A scale override that is neither [null] nor [undefined] is final: the
    frame callback leaves the mesh at that scale for every model, geometry
    key and viewport. *)
Theorem scale_override_is_kept (nodes : gmap string Node) (geometryKey : string)
    (modeProps : gmap string JsVal) (v_width : Q) (v : JsVal) :
  modeProps !! "scale" = Some v -> nullish (Some v) = false ->
  scaleAfterFrame nodes geometryKey modeProps v_width = Normal v.
Proof.
  intros Hv Hnn. unfold scaleAfterFrame, geoWidthEffect.
  assert (Hf : forall w, frameScale modeProps v_width w (meshScaleProp modeProps) = v).
  { intros w. unfold frameScale, meshScaleProp. rewrite Hv, Hnn.
    destruct v; first [discriminate Hnn | reflexivity]. }
  destruct (nodes !! geometryKey) as [[[g|]]|]; cbn; now rewrite Hf.
Qed.

Lemma scale_override_is_kept_witness :
  scaleAfterFrame ∅ "Cylinder" (<["scale" := VNum 0.25]> ∅) 3 = Normal (VNum 0.25).
Proof.
  apply (scale_override_is_kept ∅ "Cylinder" (<["scale" := VNum 0.25]> ∅) 3 (VNum 0.25));
    reflexivity.
Defined.

End GlassScale.

(** ** What reaches the transmission material *)

Section Material.

Import ModeWrapper.

Lemma extraMat_lookup_other (modeProps : gmap string JsVal) (k : string) :
  k ∉ namedProps -> extraMat modeProps !! k = modeProps !! k.
Proof.
  unfold namedProps. intros Hk. unfold extraMat.
  rewrite !not_elem_of_cons in Hk.
  destruct Hk as (H1 & H2 & H3 & H4 & H5 & _).
  rewrite !lookup_delete_ne by congruence. reflexivity.
Qed.

Lemma extraMat_lookup_named (modeProps : gmap string JsVal) (k : string) :
  k ∈ namedProps -> extraMat modeProps !! k = None.
Proof.
  unfold namedProps, extraMat. rewrite !elem_of_cons, elem_of_nil.
  intros [->|[->|[->|[->|[->|[]]]]]];
    repeat first [ apply lookup_delete_eq
                 | rewrite lookup_delete_ne by (intros [=]) ].
Qed.

Lemma materialProps_lookup_named (modeProps : gmap string JsVal) (k : string) :
  k ∈ namedProps ->
  materialProps modeProps !! k =
  (<["buffer" := VRef "buffer.texture"]>
   (<["ior" := coalesce (modeProps !! "ior") (VNum 1.15)]>
   (<["thickness" := coalesce (modeProps !! "thickness") (VNum 5)]>
   (<["anisotropy" := coalesce (modeProps !! "anisotropy") (VNum 0.01)]>
   (<["chromaticAberration" :=
        coalesce (modeProps !! "chromaticAberration") (VNum 0.1)]>
    (∅ : gmap string JsVal)))))) !! k.
Proof.
  intros Hk. unfold materialProps.
  apply lookup_union_r, extraMat_lookup_named, Hk.
Qed.

(** X7. Every override that is not one of the five props taken out by name is
    handed to the material verbatim, under its own name -- and this includes
    an override called [buffer], which replaces the offscreen texture. *)
Theorem material_passes_overrides_through (modeProps : gmap string JsVal)
    (k : string) (v : JsVal) :
  k ∉ namedProps -> modeProps !! k = Some v ->
  materialProps modeProps !! k = Some v.
Proof.
  intros Hk Hv. unfold materialProps.
  apply lookup_union_Some_l. now rewrite extraMat_lookup_other.
Qed.

Lemma material_passes_overrides_through_witness :
  materialProps (<["buffer" := VRef "mine"]> (<["ior" := VNum 2]> ∅)) !! "buffer"
  = Some (VRef "mine").
Proof.
  apply (material_passes_overrides_through
           (<["buffer" := VRef "mine"]> (<["ior" := VNum 2]> ∅)) "buffer" (VRef "mine")).
  - unfold namedProps. rewrite !not_elem_of_cons.
    repeat split; first [ intros [=] | apply not_elem_of_nil ].
  - reflexivity.
Defined.

(** X8. The four optical parameters are always defined on the material: each
    is the override when that is neither [null] nor [undefined], and its
    default (1.15, 5, 0.01, 0.1) otherwise; [scale] is never a material
    prop. *)
Theorem material_named_parameters (modeProps : gmap string JsVal) :
  materialProps modeProps !! "ior"
    = Some (coalesce (modeProps !! "ior") (VNum 1.15)) /\
  materialProps modeProps !! "thickness"
    = Some (coalesce (modeProps !! "thickness") (VNum 5)) /\
  materialProps modeProps !! "anisotropy"
    = Some (coalesce (modeProps !! "anisotropy") (VNum 0.01)) /\
  materialProps modeProps !! "chromaticAberration"
    = Some (coalesce (modeProps !! "chromaticAberration") (VNum 0.1)) /\
  materialProps modeProps !! "scale" = None.
Proof.
  repeat split;
    (rewrite materialProps_lookup_named
       by (unfold namedProps; rewrite !elem_of_cons; tauto));
    reflexivity.
Qed.

Lemma FluidGlass_modeProps_no_nav (raw : gmap string JsVal) :
  FluidGlass.modeProps raw !! "navItems" = None.
Proof. apply lookup_delete_eq. Qed.

Lemma materialProps_no_nav (modeProps : gmap string JsVal) :
  modeProps !! "navItems" = None ->
  materialProps modeProps !! "navItems" = None.
Proof.
  intros H. unfold materialProps.
  rewrite lookup_union_r.
  - reflexivity.
  - rewrite extraMat_lookup_other; [assumption|].
    unfold namedProps. rewrite !not_elem_of_cons.
    repeat split; first [ intros [=] | apply not_elem_of_nil ].
Qed.

(** X9. Whatever the mode and the three override objects, the navigation
    list never reaches the material: [navItems] is split off before the props
    are handed to the wrapper. *)
Theorem navItems_never_reach_material (mode : string)
    (lensProps barProps cubeProps : gmap string JsVal) :
  Glass.material mode lensProps barProps cubeProps !! "navItems" = None.
Proof.
  unfold Glass.material.
  destruct (FluidGlass.Wrapper mode);
    unfold Bar.material, Cube.material, Lens.material;
    apply materialProps_no_nav.
  - unfold Bar.modeProps. rewrite lookup_union_r.
    + reflexivity.
    + apply FluidGlass_modeProps_no_nav.
  - apply FluidGlass_modeProps_no_nav.
  - apply FluidGlass_modeProps_no_nav.
Qed.

Lemma Bar_modeProps_lookup (barProps : gmap string JsVal) (k : string) :
  Bar.modeProps barProps !! k =
  match barProps !! k with
  | Some v => Some v
  | None => Bar.defaultMat !! k
  end.
Proof.
  unfold Bar.modeProps. rewrite lookup_union.
  destruct (barProps !! k), (Bar.defaultMat !! k); reflexivity.
Qed.

(** X10. Thickness of the bar: 10 when [barProps] does not mention it, the
    given value when that is neither [null] nor [undefined], and 5 -- the
    wrapper's fallback, not the bar's 10 -- when [barProps] carries an
    explicit [undefined] or [null]. *)
Theorem bar_thickness_cases (barProps : gmap string JsVal) :
  (barProps !! "thickness" = None ->
   Bar.material barProps !! "thickness" = Some (VNum 10)) /\
  (forall v : JsVal,
     barProps !! "thickness" = Some v -> nullish (Some v) = false ->
     Bar.material barProps !! "thickness" = Some v) /\
  (forall v : JsVal,
     barProps !! "thickness" = Some v -> nullish (Some v) = true ->
     Bar.material barProps !! "thickness" = Some (VNum 5)).
Proof.
  assert (E : Bar.material barProps !! "thickness" =
              Some (coalesce (match barProps !! "thickness" with
                              | Some v => Some v
                              | None => Some (VNum 10)
                              end) (VNum 5))).
  { unfold Bar.material.
    rewrite materialProps_lookup_named
      by (unfold namedProps; rewrite !elem_of_cons; tauto).
    rewrite lookup_insert_ne by (intros [=]).
    rewrite lookup_insert_ne by (intros [=]).
    rewrite lookup_insert_eq.
    rewrite Bar_modeProps_lookup. unfold FluidGlass.modeProps.
    rewrite lookup_delete_ne by (intros [=]).
    destruct (barProps !! "thickness"); reflexivity. }
  rewrite E. repeat split.
  - intros ->. reflexivity.
  - intros v -> Hv. destruct v; first [discriminate Hv | reflexivity].
  - intros v -> Hv. destruct v; first [discriminate Hv | reflexivity].
Qed.

End Material.

(** ** The row of navigation labels *)

Section NavRow.

Import Stdlib.Strings.Ascii.

Local Open Scope Q_scope.

Lemma layout_lookup (items : list NavItem) (spacing : Q) (i : nat) :
  (i < length items)%nat ->
  NavItems.layout items spacing !! i = Some (NavItems.childX items spacing i).
Proof.
  intros Hi. unfold NavItems.layout. rewrite list_lookup_imap.
  destruct (lookup_lt_is_Some_2 items i Hi) as [x ->]. reflexivity.
Qed.

Lemma childX_step (items : list NavItem) (spacing : Q) (i : nat) :
  NavItems.childX items spacing (S i) - NavItems.childX items spacing i == spacing.
Proof.
  unfold NavItems.childX. rewrite inject_Z_of_nat_S. ring.
Qed.

Lemma childX_mirror (items : list NavItem) (spacing : Q) (i : nat) :
  (i < length items)%nat ->
  NavItems.childX items spacing (length items - 1 - i)
  == - NavItems.childX items spacing i.
Proof.
  intros Hi. unfold NavItems.childX.
  assert (E : Z.of_nat (length items - 1 - i)
              = (Z.of_nat (length items) + (- 1 + - Z.of_nat i))%Z) by lia.
  rewrite E, !inject_Z_plus, inject_Z_opp.
  change (inject_Z (-1)) with (- (1)). field.
Qed.

Lemma spacing_positive (device : Device) :
  0 < NavItems.spacing (NavItems.DEVICE device).
Proof. destruct device; cbn; lra. Qed.

(** X11. On every breakpoint the labels are laid out from left to right in
    the order of the items (each label lies strictly to the right of the one
    before it), and the row is mirror symmetric: the label at position
    [N-1-i] sits at minus the offset of label [i]. *)
Theorem nav_labels_ordered_and_mirrored (items : list NavItem) (device : Device)
    (i : nat) :
  (S i < length items)%nat ->
  exists a b m : Q,
    NavItems.frame items device !! i = Some a /\
    NavItems.frame items device !! S i = Some b /\
    NavItems.frame items device !! (length items - 1 - i)%nat = Some m /\
    a < b /\ m == - a.
Proof.
  intros Hi. unfold NavItems.frame.
  set (sp := NavItems.spacing (NavItems.DEVICE device)).
  exists (NavItems.childX items sp i),
         (NavItems.childX items sp (S i)),
         (NavItems.childX items sp (length items - 1 - i)).
  rewrite !layout_lookup by lia.
  repeat split.
  - pose proof (childX_step items sp i) as Hstep.
    pose proof (spacing_positive device) as Hsp. fold sp in Hsp. lra.
  - apply childX_mirror. lia.
Qed.

Lemma nav_labels_ordered_and_mirrored_witness :
  let items := FluidGlass.defaultNavItems in
  exists a b m : Q,
    NavItems.frame items tablet !! 0%nat = Some a /\
    NavItems.frame items tablet !! 1%nat = Some b /\
    NavItems.frame items tablet !! (length items - 1 - 0)%nat = Some m /\
    a < b /\ m == - a.
Proof.
  apply (nav_labels_ordered_and_mirrored FluidGlass.defaultNavItems tablet 0).
  cbn. lia.
Defined.

(** X12. Spacing and font size of the navigation row never shrink when the
    window gets wider. *)
Theorem nav_metrics_grow_with_width (w1 w2 : Z) :
  (w1 <= w2)%Z ->
  NavItems.spacing (NavItems.DEVICE (NavItems.getDevice w1))
    <= NavItems.spacing (NavItems.DEVICE (NavItems.getDevice w2)) /\
  NavItems.fontSize (NavItems.DEVICE (NavItems.getDevice w1))
    <= NavItems.fontSize (NavItems.DEVICE (NavItems.getDevice w2)).
Proof.
  intros Hw. rewrite !NavItems_getDevice_cases.
  destruct (Z.leb_spec w1 639), (Z.leb_spec w1 1023),
           (Z.leb_spec w2 639), (Z.leb_spec w2 1023);
    try lia; cbn; split; lra.
Qed.

Lemma nav_metrics_grow_with_width_witness :
  NavItems.spacing (NavItems.DEVICE (NavItems.getDevice 639))
    <= NavItems.spacing (NavItems.DEVICE (NavItems.getDevice 640)) /\
  NavItems.fontSize (NavItems.DEVICE (NavItems.getDevice 639))
    <= NavItems.fontSize (NavItems.DEVICE (NavItems.getDevice 640)).
Proof.
  apply (nav_metrics_grow_with_width 639 640). lia.
Defined.

(** X13. A click on a label does nothing when the link is missing or empty,
    assigns the fragment when the link begins with the character '#', and
    assigns the whole location in every other case. *)
Theorem handleNavigate_cases (link : string) :
  NavItems.handleNavigate None = NavItems.Stay /\
  (NavItems.handleNavigate (Some link) = NavItems.Stay <-> link = "") /\
  (NavItems.handleNavigate (Some link) = NavItems.SetHash link <->
   exists rest : string, link = String "#" rest) /\
  (NavItems.handleNavigate (Some link) = NavItems.SetHref link <->
   exists (c : Ascii.ascii) (rest : string), link = String c rest /\ c <> "#"%char).
Proof.
  split; [reflexivity|].
  destruct link as [|c rest].
  - cbn. split; [tauto|]. split.
    + split; [discriminate | intros [rest [=]]].
    + split; [discriminate | intros (c & rest & [=] & _)].
  - assert (P : String.prefix "" rest = true) by (destruct rest; reflexivity).
    unfold NavItems.handleNavigate.
    change (String.eqb (String c rest) "") with false.
    change (String.prefix "#" (String c rest))
      with (if Ascii.ascii_dec "#" c then String.prefix "" rest else false).
    rewrite P.
    destruct (Ascii.ascii_dec "#" c) as [<-|Hne].
    + split; [split; discriminate|]. split.
      * split; [eauto | reflexivity].
      * split; [discriminate|].
        intros (c' & r & E & Hc). injection E as E1 E2. congruence.
    + split; [split; discriminate|]. split.
      * split; [discriminate|]. intros [r E]. injection E as E1 E2. congruence.
      * split; [|reflexivity]. intros _. exists c, rest.
        split; [reflexivity | congruence].
Qed.

End NavRow.

(** ** History of the selection *)

Section SelectionHistory.

Import Images.

Lemma fold_step_clear (post : list Event) (s : Selection) (e : Event) :
  step s e = None -> fold_left step (e :: post) s = fold_left step post initial.
Proof. intros H. cbn. rewrite H. reflexivity. Qed.

Lemma run_Some_clicked (events : list Event) (i : nat) :
  run events = Some i -> ImageClick i ∈ events.
Proof.
  induction events as [|e events IH] using rev_ind; [discriminate|].
  rewrite run_snoc. intros H. apply elem_of_app.
  destruct e as [j|tagName|key]; cbn in H.
  - right. unfold handleImageClick in H.
    destruct (strictEq (run events) j); [discriminate|].
    injection H as ->. apply list_elem_of_singleton. reflexivity.
  - left. unfold handleGlobalClick in H.
    destruct (String.eqb tagName "CANVAS"); [discriminate | auto].
  - left. unfold handleKeyDown in H.
    destruct (String.eqb key "Escape"); [discriminate | auto].
Qed.

(** X14. A selection only ever comes from a click on that image: if [i] is
    selected after a history of events, the history contains a click on
    image [i]; when all clicks were on images below [n], exactly the image
    [i] of the [n] images renders as selected. *)
Theorem selection_comes_from_a_click (events : list Event) (n i : nat) :
  (forall j : nat, ImageClick j ∈ events -> (j < n)%nat) ->
  run events = Some i ->
  ImageClick i ∈ events /\ (i < n)%nat /\ selectedIndices (run events) n = [i].
Proof.
  intros Hrange Hrun.
  pose proof (run_Some_clicked events i Hrun) as Hin.
  pose proof (Hrange i Hin) as Hlt.
  repeat split; try assumption.
  rewrite Hrun, selectedIndices_some.
  destruct (Nat.ltb_spec i n); [reflexivity | lia].
Qed.

Lemma selection_comes_from_a_click_witness :
  let events := [ImageClick 2; KeyDown "a"; ImageClick 5] in
  ImageClick 5 ∈ events /\ (5 < 8)%nat /\ selectedIndices (run events) 8 = [5].
Proof.
  apply (selection_comes_from_a_click
           [ImageClick 2; KeyDown "a"; ImageClick 5] 8 5).
  - intros j Hj. rewrite !elem_of_cons, elem_of_nil in Hj.
    destruct Hj as [[= ->]|[[=]|[[= ->]|[]]]]; lia.
  - reflexivity.
Defined.

Lemma step_inert (s : Selection) (e : Event) : inert e = true -> step s e = s.
Proof.
  destruct e as [j|tagName|key]; cbn; [discriminate| |];
    intros H; apply negb_true_iff in H.
  - unfold handleGlobalClick. now rewrite H.
  - unfold handleKeyDown. now rewrite H.
Qed.

Lemma fold_step_drop_inert (events : list Event) (s : Selection) :
  fold_left step (List.filter (fun e => negb (inert e)) events) s
  = fold_left step events s.
Proof.
  revert s. induction events as [|e events IH]; intros s; [reflexivity|].
  cbn. destruct (inert e) eqn:E; cbn.
  - rewrite (step_inert s e E). apply IH.
  - apply IH.
Qed.

(** X15. Window clicks whose target is not a canvas element and keys other
    than Escape never change the selection: striking them from any history
    leaves the resulting selection the same. *)
Theorem inert_events_are_ignored (events : list Event) :
  run (List.filter (fun e => negb (inert e)) events) = run events.
Proof. apply fold_step_drop_inert. Qed.

(** X16. Escape and a click on the canvas forget everything before them:
    the selection after a history that contains one of them is the one the
    events after it produce from the empty selection. *)
Theorem clearing_resets_history (before after : list Event) :
  run (before ++ escape :: after) = run after /\
  run (before ++ backgroundClick :: after) = run after.
Proof.
  unfold run. rewrite !fold_left_app.
  split; apply fold_step_clear; reflexivity.
Qed.

End SelectionHistory.

(** ** The dimming plane and the selected image *)

Section Backdrop.

Local Open Scope Q_scope.

Import Images.

(** X17. The dimming plane is rendered exactly when an image is selected;
    it is then at the x and y the selected image moves to, one unit behind
    it (depth 14 against 15), and four viewports wide and high. *)
Theorem backdrop_behind_selected (selectedImage : Selection)
    (scroll_offset scroll_pages width height : Q) :
  (backdrop selectedImage scroll_offset scroll_pages width height = None
   <-> selectedImage = None) /\
  (forall i : nat, selectedImage = Some i ->
   exists p sc : Q * Q * Q,
     backdrop selectedImage scroll_offset scroll_pages width height = Some (p, sc) /\
     let t := ImageWithAspectRatio.selectedPosition scroll_offset scroll_pages height in
     fst (fst p) == fst (fst t) /\ snd (fst p) == snd (fst t) /\
     snd t - snd p == 1 /\
     sc = (width * 4, height * 4, 1)).
Proof.
  split.
  - destruct selectedImage; cbn; split; intros; congruence.
  - intros i ->. cbn. eexists _, _. split; [reflexivity|].
    cbn. repeat split; ring.
Qed.

(** X18. With the three pages of the scene and a scroll offset in [0,1], the
    selected image is pinned between the top of the first page and the top
    of the last one: its target y is [-2 * offset * viewport.height]. *)
Theorem selected_image_follows_scroll (scroll_offset viewport_height : Q) :
  0 <= scroll_offset <= 1 -> 0 <= viewport_height ->
  let t := ImageWithAspectRatio.selectedPosition
             scroll_offset FluidGlass.pages viewport_height in
  fst (fst t) == 0 /\
  snd (fst t) == - (2 * scroll_offset * viewport_height) /\
  - (2 * viewport_height) <= snd (fst t) <= 0 /\
  snd t == 15.
Proof.
  intros Ho Hh t. subst t.
  unfold ImageWithAspectRatio.selectedPosition, FluidGlass.pages.
  cbn [fst snd].
  assert (E : - (scroll_offset * (3 - 1) * viewport_height)
              == - (2 * scroll_offset * viewport_height)) by ring.
  rewrite E.
  repeat split; try reflexivity; nra.
Qed.

Lemma selected_image_follows_scroll_witness :
  let t := ImageWithAspectRatio.selectedPosition (1 # 2) FluidGlass.pages 5 in
  fst (fst t) == 0 /\
  snd (fst t) == - (2 * (1 # 2) * 5) /\
  - (2 * 5) <= snd (fst t) <= 0 /\
  snd t == 15.
Proof.
  apply (selected_image_follows_scroll (1 # 2) 5); [split|]; lra.
Defined.

End Backdrop.

(** ** More on the scale of an image *)

Section ImageScaleMore.

Local Open Scope Q_scope.

Import ImageWithAspectRatio.

Lemma truthy_zero (q : Q) : q == 0 -> truthy (Some q) = None.
Proof.
  intros H. cbn. apply Qeq_bool_iff in H. now rewrite H.
Qed.

Lemma truthy_nonzero (q : Q) : ~ q == 0 -> truthy (Some q) = Some q.
Proof.
  intros H. cbn. destruct (Qeq_bool q 0) eqn:E; [|reflexivity].
  apply Qeq_bool_iff in E. contradiction.
Qed.

(** X19. A [desiredWidth] of 0 counts as not given (the choice falls through
    to [desiredHeight], then to 40% of the viewport width), while any
    non-zero [desiredWidth] decides the base scale alone, whatever
    [desiredHeight] says. *)
Theorem desiredWidth_zero_is_absent (a : Q) (desiredWidth : Q)
    (desiredHeight : option Q) (viewport_width : Q) :
  (desiredWidth == 0 ->
   baseScale a (Some desiredWidth) desiredHeight viewport_width
   = baseScale a None desiredHeight viewport_width) /\
  (~ desiredWidth == 0 ->
   baseScale a (Some desiredWidth) desiredHeight viewport_width
   = (desiredWidth, desiredWidth / a)) /\
  baseScale a None None viewport_width
  = (viewport_width * 0.4, viewport_width * 0.4 / a).
Proof.
  unfold baseScale. repeat split.
  - intros H. now rewrite (truthy_zero _ H).
  - intros H. now rewrite (truthy_nonzero _ H).
Qed.

Lemma maxScaleFactor_one (vw vh sx sy : Q) :
  0 < sx -> 0 < sy -> sx <= vw -> sy <= vh ->
  maxScaleFactor vw vh sx sy == 1.
Proof.
  intros Hsx Hsy Hx Hy. unfold maxScaleFactor.
  assert (H1 : 1 <= vw / sx) by (apply Qle_shift_div_l; lra).
  assert (H2 : 1 <= vh / sy) by (apply Qle_shift_div_l; lra).
  apply Q.min_r. apply Q.min_glb; assumption.
Qed.

Lemma scale_le_base (a : Q) (dw dh : option Q) (vw vh : Q) :
  0 < a -> positiveIfSet dw -> positiveIfSet dh -> 0 < vw -> 0 < vh ->
  0 < fst (scale a dw dh vw vh) <= fst (baseScale a dw dh vw) /\
  0 < snd (scale a dw dh vw vh) <= snd (baseScale a dw dh vw) /\
  (fst (baseScale a dw dh vw) <= vw -> snd (baseScale a dw dh vw) <= vh ->
   fst (scale a dw dh vw vh) == fst (baseScale a dw dh vw) /\
   snd (scale a dw dh vw vh) == snd (baseScale a dw dh vw)).
Proof.
  intros Ha Hdw Hdh Hvw Hvh.
  destruct (baseScale_ratio a dw dh vw Ha Hdw Hdh Hvw) as (Hbx & Hby & _).
  destruct (maxScaleFactor_bounds vw vh _ _ Hvw Hvh Hbx Hby) as (Hf0 & Hf1 & _ & _).
  pose proof (maxScaleFactor_one vw vh _ _ Hbx Hby) as Hone.
  rewrite scale_unfold. cbn [fst snd].
  set (bx := fst (baseScale a dw dh vw)) in *.
  set (by_ := snd (baseScale a dw dh vw)) in *.
  set (f := maxScaleFactor vw vh bx by_) in *. clearbody f.
  assert (Hx : bx * f <= bx * 1) by (apply Qmult_le_l; assumption).
  assert (Hy : by_ * f <= by_ * 1) by (apply Qmult_le_l; assumption).
  repeat split.
  - now apply Qmult_lt_0_compat.
  - lra.
  - now apply Qmult_lt_0_compat.
  - lra.
  - rewrite (Hone H H0). ring.
  - rewrite (Hone H H0). ring.
Qed.

(** X20. The clamp to the viewport only ever shrinks: on both axes the scale
    is positive and at most the base scale, and a base scale that already
    fits in the viewport is left as it is. *)
Theorem scale_clamp_only_shrinks (image : Image) (desiredWidth desiredHeight : option Q)
    (viewport_width viewport_height : Q) :
  (0 < width image)%Z -> (0 < height image)%Z ->
  positiveIfSet desiredWidth -> positiveIfSet desiredHeight ->
  0 < viewport_width -> 0 < viewport_height ->
  let a := aspectRatio image in
  let base := baseScale a desiredWidth desiredHeight viewport_width in
  let s := scale a desiredWidth desiredHeight viewport_width viewport_height in
  0 < fst s <= fst base /\ 0 < snd s <= snd base /\
  (fst base <= viewport_width -> snd base <= viewport_height ->
   fst s == fst base /\ snd s == snd base).
Proof.
  intros Hw Hh Hdw Hdh Hvw Hvh a base s.
  apply scale_le_base; try assumption.
  now apply aspectRatio_pos.
Qed.

Lemma scale_clamp_only_shrinks_witness :
  let image := {| width := 400; height := 200 |} in
  let a := aspectRatio image in
  let base := baseScale a (Some 6) None 4 in
  let s := scale a (Some 6) None 4 3 in
  0 < fst s <= fst base /\ 0 < snd s <= snd base /\
  (fst base <= 4 -> snd base <= 3 -> fst s == fst base /\ snd s == snd base).
Proof.
  apply (scale_clamp_only_shrinks {| width := 400; height := 200 |} (Some 6) None 4 3);
    cbn; first [lia | lra | exact I].
Defined.

Lemma targetScale_shrinks (a sx sy cw ch : Q) :
  0 < a -> 0 < sy -> sx == a * sy -> 0 < cw -> 0 < ch ->
  fst (targetScale a (sx, sy) cw ch) <= sx /\
  snd (targetScale a (sx, sy) cw ch) <= sy /\
  (sx <= cw * 0.8 -> sy <= ch * 0.8 -> targetScale a (sx, sy) cw ch = (sx, sy)).
Proof.
  intros Ha Hsy Hr Hcw Hch. unfold targetScale.
  set (maxWidth := cw * 0.8). set (maxHeight := ch * 0.8).
  assert (Hsya : sy * a == sx) by (rewrite Hr; ring).
  destruct (gt sx maxWidth) eqn:E1.
  - apply gt_true_iff in E1.
    assert (Hq : maxWidth / a < sy).
    { apply Qlt_shift_div_r; [assumption | lra]. }
    destruct (gt (maxWidth / a) maxHeight) eqn:E2; cbn [fst snd].
    + apply gt_true_iff in E2.
      assert (maxHeight * a < sy * a) by (apply Qmult_lt_compat_r; lra).
      repeat split; try lra.
    + repeat split; try lra.
  - apply gt_false_iff in E1.
    destruct (gt sy maxHeight) eqn:E2; cbn [fst snd].
    + apply gt_true_iff in E2.
      assert (maxHeight * a < sy * a) by (apply Qmult_lt_compat_r; lra).
      repeat split; try lra.
    + repeat split; lra.
Qed.

(** X21. Selecting an image never makes it larger: on both axes the target
    scale of the selected image is at most the scale it has when not
    selected, and the two are the same when that scale already fits in 80%
    of the viewport at the depth of the glass. *)
Theorem selecting_never_enlarges (image : Image)
    (desiredWidth desiredHeight : option Q) (index : nat)
    (viewport_width viewport_height v_width v_height : Q) :
  (0 < width image)%Z -> (0 < height image)%Z ->
  positiveIfSet desiredWidth -> positiveIfSet desiredHeight ->
  0 < viewport_width -> 0 < viewport_height ->
  0 < v_width -> 0 < v_height ->
  let idle := frameTargetScale image desiredWidth desiredHeight index None
                viewport_width viewport_height v_width v_height in
  let sel := frameTargetScale image desiredWidth desiredHeight index (Some index)
               viewport_width viewport_height v_width v_height in
  idle = scale (aspectRatio image) desiredWidth desiredHeight
           viewport_width viewport_height /\
  fst sel <= fst idle /\ snd sel <= snd idle /\
  (fst idle <= v_width * 0.8 -> snd idle <= v_height * 0.8 -> sel = idle).
Proof.
  intros Hw Hh Hdw Hdh Hvw Hvh Hcw Hch idle sel. subst idle sel.
  unfold frameTargetScale, isSelected. cbn [strictEq].
  rewrite Nat.eqb_refl. cbv zeta.
  split; [reflexivity|].
  pose proof (aspectRatio_pos image Hw Hh) as Ha.
  set (a := aspectRatio image) in *.
  destruct (baseScale_ratio a desiredWidth desiredHeight viewport_width
              Ha Hdw Hdh Hvw) as (Hbx & Hby & Hratio).
  destruct (maxScaleFactor_bounds viewport_width viewport_height
              _ _ Hvw Hvh Hbx Hby) as (Hf & _ & _ & _).
  rewrite scale_unfold.
  set (f := maxScaleFactor _ _ _ _) in *. clearbody f.
  apply targetScale_shrinks; try assumption.
  - now apply Qmult_lt_0_compat.
  - rewrite Hratio. ring.
Qed.

Lemma selecting_never_enlarges_witness :
  let image := {| width := 1600; height := 900 |} in
  let idle := frameTargetScale image (Some 2) None 0 None 5 3 1 1 in
  let sel := frameTargetScale image (Some 2) None 0 (Some 0%nat) 5 3 1 1 in
  idle = scale (aspectRatio image) (Some 2) None 5 3 /\
  fst sel <= fst idle /\ snd sel <= snd idle /\
  (fst idle <= 1 * 0.8 -> snd idle <= 1 * 0.8 -> sel = idle).
Proof.
  apply (selecting_never_enlarges {| width := 1600; height := 900 |}
           (Some 2) None 0 5 3 1 1);
    cbn; first [lia | lra | exact I].
Defined.

End ImageScaleMore.

(** ** The fixed gallery *)

Section Gallery.

Local Open Scope Q_scope.

Import ImageWithAspectRatio.

Lemma imageConfig_desired (w h : Q) (c : Images.Config) :
  0 < w -> c ∈ Images.imageConfig w h ->
  Images.desiredHeight c = None /\
  exists dw : Q, Images.desiredWidth c = Some dw /\ 0 < dw <= 0.4 * w.
Proof.
  intros Hw Hin. unfold Images.imageConfig in Hin.
  rewrite !elem_of_cons, elem_of_nil in Hin.
  destruct Hin as [->|[->|[->|[->|[->|[->|[->|[->|[]]]]]]]]]; cbn;
    (split; [reflexivity|]); eexists; (split; [reflexivity|]); lra.
Qed.

(** X22. Every entry of the gallery asks for no height and for a positive
    width below half the viewport width, which is its base width; whatever
    the (positive) pixel size of its picture, its scale is positive and at
    most the base scale on both axes, and it is the base scale itself when
    the picture at the requested width is no taller than the viewport. *)
Theorem gallery_images_keep_requested_width (w h : Q) (image : Image)
    (c : Images.Config) :
  0 < w -> 0 < h ->
  (0 < width image)%Z -> (0 < height image)%Z ->
  c ∈ Images.imageConfig w h ->
  let a := aspectRatio image in
  let base := baseScale a (Images.desiredWidth c) (Images.desiredHeight c) w in
  let s := scale a (Images.desiredWidth c) (Images.desiredHeight c) w h in
  Images.desiredHeight c = None /\
  Images.desiredWidth c = Some (fst base) /\
  0 < fst base /\ 2 * fst base < w /\
  0 < fst s <= fst base /\ 0 < snd s <= snd base /\
  (snd base <= h -> fst s == fst base /\ snd s == snd base).
Proof.
  intros Hw Hh Hiw Hih Hin a base s.
  destruct (imageConfig_desired w h c Hw Hin) as (Hdh & dw & Hdw & Hpos & Hle).
  pose proof (aspectRatio_pos image Hiw Hih) as Ha. fold a in Ha.
  assert (Hb : base = (dw, dw / a)).
  { unfold base, baseScale. rewrite Hdw, truthy_nonzero by lra. reflexivity. }
  assert (P1 : positiveIfSet (Images.desiredWidth c)) by (rewrite Hdw; exact Hpos).
  assert (P2 : positiveIfSet (Images.desiredHeight c)) by (rewrite Hdh; exact I).
  destruct (scale_le_base a (Images.desiredWidth c) (Images.desiredHeight c) w h
              Ha P1 P2 Hw Hh) as (Hx & Hy & Hfit).
  fold base in Hx, Hy, Hfit. fold s in Hx, Hy, Hfit.
  assert (Hbx : fst base = dw) by (rewrite Hb; reflexivity).
  split; [exact Hdh|].
  split; [rewrite Hdw, Hbx; reflexivity|].
  split; [rewrite Hbx; lra|].
  split; [rewrite Hbx; lra|].
  split; [exact Hx|].
  split; [exact Hy|].
  intros Hh'. apply Hfit; [rewrite Hbx; lra | assumption].
Qed.

Lemma gallery_images_keep_requested_width_witness :
  let image := {| width := 600; height := 800 |} in
  let c := {| Images.url := "/assets/images/bild1.png";
              Images.position := (- 5 * 0.18, - 3 * 0.48, 1.2);
              Images.desiredWidth := Some (5 * 0.4);
              Images.desiredHeight := None |} in
  let a := aspectRatio image in
  let base := baseScale a (Images.desiredWidth c) (Images.desiredHeight c) 5 in
  let s := scale a (Images.desiredWidth c) (Images.desiredHeight c) 5 3 in
  Images.desiredHeight c = None /\
  Images.desiredWidth c = Some (fst base) /\
  0 < fst base /\ 2 * fst base < 5 /\
  0 < fst s <= fst base /\ 0 < snd s <= snd base /\
  (snd base <= 3 -> fst s == fst base /\ snd s == snd base).
Proof.
  apply (gallery_images_keep_requested_width 5 3 {| width := 600; height := 800 |}
           {| Images.url := "/assets/images/bild1.png";
              Images.position := (- 5 * 0.18, - 3 * 0.48, 1.2);
              Images.desiredWidth := Some (5 * 0.4);
              Images.desiredHeight := None |});
    first [ lra | cbn; lia | idtac ].
  unfold Images.imageConfig. rewrite !elem_of_cons. tauto.
Defined.

End Gallery.

(** ** The title *)

Section Title.

Local Open Scope Q_scope.

(** X23. For non-negative scroll offsets the opacity of the title stays
    within [0,1] and never increases with the offset; once the title is
    invisible it stays invisible for every larger offset. *)
Theorem title_fades_monotonically (s1 s2 : Q) :
  0 <= s1 -> s1 <= s2 ->
  0 <= Typography.titleOpacity s2 /\
  Typography.titleOpacity s2 <= Typography.titleOpacity s1 /\
  Typography.titleOpacity s1 <= 1 /\
  (Typography.visible s1 = false -> Typography.visible s2 = false).
Proof.
  intros H0 H12.
  assert (Hmono : Typography.titleOpacity s2 <= Typography.titleOpacity s1).
  { unfold Typography.titleOpacity. cbv zeta.
    apply Q.max_lub; [apply Q.le_max_l|].
    eapply Qle_trans; [|apply Q.le_max_r]. lra. }
  repeat split.
  - apply titleOpacity_nonneg.
  - exact Hmono.
  - unfold Typography.titleOpacity. cbv zeta. apply Q.max_lub; lra.
  - unfold Typography.visible. rewrite !gt_false_iff. intros H. lra.
Qed.

Lemma title_fades_monotonically_witness :
  0 <= Typography.titleOpacity 0.2 /\
  Typography.titleOpacity 0.2 <= Typography.titleOpacity 0.1 /\
  Typography.titleOpacity 0.1 <= 1 /\
  (Typography.visible 0.1 = false -> Typography.visible 0.2 = false).
Proof.
  apply (title_fades_monotonically 0.1 0.2); lra.
Defined.

(** X24. The font sizes of the title table never shrink when the window gets
    wider. *)
Theorem title_font_grows_with_width (w1 w2 : Z) :
  (w1 <= w2)%Z ->
  Typography.titleFontSize (Typography.DEVICE (Typography.getDevice w1))
    <= Typography.titleFontSize (Typography.DEVICE (Typography.getDevice w2)) /\
  Typography.smallFontSize (Typography.DEVICE (Typography.getDevice w1))
    <= Typography.smallFontSize (Typography.DEVICE (Typography.getDevice w2)).
Proof.
  intros Hw. unfold Typography.getDevice.
  destruct (Z.leb_spec w1 639), (Z.leb_spec w1 1023),
           (Z.leb_spec w2 639), (Z.leb_spec w2 1023);
    try lia; cbn; split; lra.
Qed.

Lemma title_font_grows_with_width_witness :
  Typography.titleFontSize (Typography.DEVICE (Typography.getDevice 1023))
    <= Typography.titleFontSize (Typography.DEVICE (Typography.getDevice 1024)) /\
  Typography.smallFontSize (Typography.DEVICE (Typography.getDevice 1023))
    <= Typography.smallFontSize (Typography.DEVICE (Typography.getDevice 1024)).
Proof.
  apply (title_font_grows_with_width 1023 1024). lia.
Defined.

End Title.

(** ** Reach of the idle float *)

Section IdleReach.

Local Open Scope R_scope.

Import ImageWithAspectRatio.

(** X25. An image that is not selected aims at a point within 0.1 of its
    base position in x, within 1 in y and within 0.2 in z, at every time and
    for every index. *)
Theorem idle_target_stays_near_base (position : R * R * R) (time : R) (index : nat) :
  let t := targetPosition position time index in
  Rabs (fst (fst t) - fst (fst position)) <= 0.1 /\
  Rabs (snd (fst t) - snd (fst position)) <= 1 /\
  Rabs (snd t - snd position) <= 0.2.
Proof.
  destruct position as [[p0 p1] p2]. cbn [targetPosition fst snd].
  replace (p0 + floatOffsetX time index - p0) with (floatOffsetX time index) by lra.
  replace (p1 + floatOffsetY time index - p1) with (floatOffsetY time index) by lra.
  replace (p2 + floatOffsetZ time index - p2) with (floatOffsetZ time index) by lra.
  split; [apply floatOffsetX_bound|].
  split; [apply floatOffsetY_bound | apply floatOffsetZ_bound].
Qed.




End IdleReach.

(** ** The scene as the application mounts it *)

Section Application.

(** X27. As [App] configures the component (lens mode, four navigation items
    in [lensProps]) no navigation row is rendered, the lens geometry is used,
    and the material receives exactly the offscreen texture and the four
    default optical parameters: the navigation items are dropped. *)
Theorem app_scene :
  FluidGlass.renderedNavItems App.mode App.lensProps App.barProps App.cubeProps
    = None /\
  Glass.geometryKey App.mode = "Cylinder" /\
  Glass.material App.mode App.lensProps App.barProps App.cubeProps
  = <["buffer" := VRef "buffer.texture"]>
    (<["ior" := VNum 1.15]>
    (<["thickness" := VNum 5]>
    (<["anisotropy" := VNum 0.01]>
    (<["chromaticAberration" := VNum 0.1]> ∅)))).
Proof.
  split; [reflexivity|]. split; [reflexivity|].
  apply map_eq. intros k.
  unfold Glass.material, App.mode. cbn [FluidGlass.Wrapper String.eqb].
  change (FluidGlass.Wrapper "lens") with FluidGlass.LensWrapper. cbv iota.
  change (FluidGlass.rawOverrides "lens" App.lensProps App.barProps App.cubeProps)
    with App.lensProps.
  unfold Lens.material, ModeWrapper.materialProps, ModeWrapper.extraMat,
    FluidGlass.modeProps, App.lensProps.
  rewrite delete_insert_eq, !delete_empty.
  rewrite (left_id_L ∅ (∪)).
  rewrite !lookup_empty. reflexivity.
Qed.

End Application.
